(** * contact_parser: a table of contacts rendered as a vCard document

    A shallow embedding of [contact_parser.py]: the two validation patterns
    with a model of [re.search], the card template with a model of
    [str.format], the table [pandas] hands to the program, and [main] as a
    state-and-exception computation over the file system, standard input and
    standard output. *)

From Stdlib Require Import Ascii String List Bool Arith Lia DecimalString.
From stdpp Require Import base option list strings gmap.

(** ** Characters and strings

    Python's [str] is modelled by [string]; the patterns, the template, the
    column names and the two extensions are all in the ASCII range. *)

(** The line terminator ['\n']. *)
Definition nl : ascii := "010"%char.

Definition chars (s : string) : list ascii := list_ascii_of_string s.

Definition char_between (lo hi c : ascii) : bool :=
  ((nat_of_ascii lo <=? nat_of_ascii c) && (nat_of_ascii c <=? nat_of_ascii hi))%nat.

(** [str.lower], on the ASCII letters. *)
Definition lower_char (c : ascii) : ascii :=
  if char_between "A"%char "Z"%char c then ascii_of_nat (nat_of_ascii c + 32) else c.

Fixpoint lower (s : string) : string :=
  match s with
  | EmptyString => EmptyString
  | String c s' => String (lower_char c) (lower s')
  end.

Fixpoint string_drop (n : nat) (s : string) : string :=
  match n, s with
  | O, _ => s
  | S n', EmptyString => EmptyString
  | S n', String _ s' => string_drop n' s'
  end.

(** The slice [s[-n:]] for [n > 0]: the last [n] characters, or all of [s]
    when it is shorter. *)
Definition last_chars (n : nat) (s : string) : string :=
  string_drop (String.length s - n) s.

(** [str(n)] for a non-negative integer. *)
Definition str_of_nat (n : nat) : string :=
  NilZero.string_of_uint (Nat.to_uint n).

(** ** Regular expressions: the fragment of [re] the two patterns use *)

Module Re.

(** The members of a bracketed set: a single character or a range. *)
Inductive item : Type :=
| One (c : ascii)
| Range (lo hi : ascii).

Inductive regex : Type :=
| Eps                          (* the empty pattern *)
| Sym (cs : list item)         (* one character out of [cs] *)
| Bol                          (* ^ *)
| Eol                          (* $ *)
| Cat (r1 r2 : regex)          (* r1 r2 *)
| Alt (r1 r2 : regex)          (* r1|r2 *)
| Star (r : regex).            (* r* *)

(** A literal (or escaped) character, [r?], [r{n}], [r{n,}] and [r+]. Groups,
    capturing or not, do not change whether a pattern is found. *)
Definition Chr (c : ascii) : regex := Sym [One c].
Definition Opt (r : regex) : regex := Alt r Eps.
Fixpoint Rep (n : nat) (r : regex) : regex :=
  match n with
  | O => Eps
  | S n' => Cat r (Rep n' r)
  end.
Definition AtLeast (n : nat) (r : regex) : regex := Cat (Rep n r) (Star r).
Definition Plus (r : regex) : regex := AtLeast 1 r.
Definition Seq (rs : list regex) : regex := fold_right Cat Eps rs.

Definition item_has (c : ascii) (i : item) : bool :=
  match i with
  | One c' => Ascii.eqb c c'
  | Range lo hi => char_between lo hi c
  end.

Definition in_set (cs : list item) (c : ascii) : bool := existsb (item_has c) cs.

(** [$] without the MULTILINE flag: at the end of the string, or just before
    a line terminator that ends the string. *)
Definition at_eol (rest : list ascii) : bool :=
  match rest with
  | [] => true
  | [c] => Ascii.eqb c nl
  | _ => false
  end.

(** A position in the subject string: whether it is the start of the string,
    and what is left to read. *)
Definition cont : Type := bool -> list ascii -> bool.

(** One more round of [r*]: a round that reads nothing is not taken, so the
    number of rounds is bounded by the length of the subject. *)
Fixpoint star_loop (step : bool -> list ascii -> cont -> bool) (fuel : nat)
    (bol : bool) (s : list ascii) (k : cont) : bool :=
  k bol s ||
  match fuel with
  | O => false
  | S fuel' =>
      step bol s (fun bol' s' =>
        (length s' <? length s) && star_loop step fuel' bol' s' k)
  end.

(** Backtracking matcher: [run r bol s k] tries every way [r] can read a
    prefix of [s] and hands the position after it to [k]. *)
Fixpoint run (r : regex) (bol : bool) (s : list ascii) (k : cont) : bool :=
  match r with
  | Eps => k bol s
  | Sym cs =>
      match s with
      | [] => false
      | c :: s' => in_set cs c && k false s'
      end
  | Bol => bol && k bol s
  | Eol => at_eol s && k bol s
  | Cat r1 r2 => run r1 bol s (fun bol' s' => run r2 bol' s' k)
  | Alt r1 r2 => run r1 bol s k || run r2 bol s k
  | Star r' => star_loop (run r') (length s) bol s k
  end.

Definition accept : cont := fun _ _ => true.

(** [re.search]: try each start position, from the left. *)
Fixpoint search_from (r : regex) (bol : bool) (s : list ascii) : bool :=
  run r bol s accept ||
  match s with
  | [] => false
  | _ :: s' => search_from r false s'
  end.

(** [re.search(r, s) is not None] for a [str] subject. *)
Definition search (r : regex) (s : string) : bool :=
  search_from r true (chars s).

(** What the matcher decides: [Match r bol m rest] says that [r] reads
    exactly [m] at a position where [rest] follows [m]; [bol] tells whether
    the position is the start of the subject. *)
Definition after (bol : bool) (m : list ascii) : bool :=
  bol && match m with [] => true | _ => false end.

Inductive Match : regex -> bool -> list ascii -> list ascii -> Prop :=
| MEps bol rest : Match Eps bol [] rest
| MSym cs bol c rest : in_set cs c = true -> Match (Sym cs) bol [c] rest
| MBol rest : Match Bol true [] rest
| MEol bol rest : at_eol rest = true -> Match Eol bol [] rest
| MCat r1 r2 bol m1 m2 rest :
    Match r1 bol m1 (m2 ++ rest) ->
    Match r2 (after bol m1) m2 rest ->
    Match (Cat r1 r2) bol (m1 ++ m2) rest
| MAltL r1 r2 bol m rest : Match r1 bol m rest -> Match (Alt r1 r2) bol m rest
| MAltR r1 r2 bol m rest : Match r2 bol m rest -> Match (Alt r1 r2) bol m rest
| MStar0 r bol rest : Match (Star r) bol [] rest
| MStarS r bol m1 m2 rest :
    m1 <> [] ->
    Match r bol m1 (m2 ++ rest) ->
    Match (Star r) false m2 rest ->
    Match (Star r) bol (m1 ++ m2) rest.

(** A pattern without [^] and [$]. *)
Fixpoint unanchored (r : regex) : bool :=
  match r with
  | Eps | Sym _ => true
  | Bol | Eol => false
  | Cat r1 r2 | Alt r1 r2 => unanchored r1 && unanchored r2
  | Star r' => unanchored r'
  end.

(** A pattern that opens with [^], one that closes with [$]. *)
Fixpoint opens_with_bol (r : regex) : bool :=
  match r with
  | Bol => true
  | Cat r1 _ => opens_with_bol r1
  | _ => false
  end.

Fixpoint closes_with_eol (r : regex) : bool :=
  match r with
  | Eol => true
  | Cat r1 Eps => closes_with_eol r1
  | Cat _ r2 => closes_with_eol r2
  | _ => false
  end.

(** A pattern that can only match the empty string, and one whose every
    match ends with a character of [cs]. *)
Definition all_chars : list ascii := map ascii_of_nat (seq 0 256).

Fixpoint empty_only (r : regex) : bool :=
  match r with
  | Eps | Bol | Eol => true
  | Cat r1 r2 => empty_only r1 && empty_only r2
  | _ => false
  end.

Fixpoint ends_in (cs : list item) (r : regex) : bool :=
  match r with
  | Sym cs' => forallb (fun c => implb (in_set cs' c) (in_set cs c)) all_chars
  | Cat r1 r2 => ends_in cs r2 || (empty_only r2 && ends_in cs r1)
  | Alt r1 r2 => ends_in cs r1 && ends_in cs r2
  | _ => false
  end.

(** One continuation accepts whatever another does; a matching step that
    respects this order. *)
Definition cont_le (k1 k2 : cont) : Prop :=
  forall bol s, k1 bol s = true -> k2 bol s = true.

Definition step_mono (step : bool -> list ascii -> cont -> bool) : Prop :=
  forall bol s k1 k2, cont_le k1 k2 -> step bol s k1 = true -> step bol s k2 = true.

End Re.

(** ** Python values, exceptions and the run-time state *)

(** What a cell lookup on a row can return. [Str] is a Python [str]. [NonStr]
    is any other object: the numpy integer, float or bool of a column that
    [pandas] read as numbers, the [nan] of an empty cell, the sub-series that a
    repeated label selects; [shown] is its [str()], which is what [str.format]
    and an f-string insert. *)
Inductive value : Type :=
| Str (s : string)
| NonStr (shown : string).

Definition str (v : value) : string :=
  match v with
  | Str s => s
  | NonStr shown => shown
  end.

Definition nan : value := NonStr "nan".

Inductive exn : Type :=
| ValueError (msg : string)
| TypeError
| KeyError (key : string)
| IndexError
| EOFError
| FileNotFoundError (path : string)
| ParserError (msg : string).

Inductive outcome (A : Type) : Type :=
| Ok (a : A)
| Raise (e : exn).
Arguments Ok {A} a.
Arguments Raise {A} e.

(** The world the program runs in: the regular files with their contents, the
    lines waiting on standard input, and the text written to standard output,
    one entry per call. *)
Record world : Type := World {
  fs : gmap string string;
  stdin : list string;
  stdout : list string
}.

(** A computation reads and changes the world and returns or raises; what was
    printed or written before an exception stays. *)
Definition M (A : Type) : Type := world -> world * outcome A.

Definition ret {A} (a : A) : M A := fun w => (w, Ok a).
Definition raise {A} (e : exn) : M A := fun w => (w, Raise e).
Definition bind {A B} (c : M A) (k : A -> M B) : M B :=
  fun w =>
    match c w with
    | (w', Ok a) => k a w'
    | (w', Raise e) => (w', Raise e)
    end.
Definition lift {A} (o : outcome A) : M A := fun w => (w, o).

Notation "'let!' x ':=' c 'in' k" := (bind c (fun x => k))
  (at level 10, x pattern, c at level 100, k at level 200).
Notation "c '>>' k" := (bind c (fun _ => k))
  (at level 90, right associativity).

(** A line of text: [s] and the line terminator. *)
Definition line (s : string) : string := s +:+ String nl "".

(** [print(s)]. *)
Definition print (s : string) : M unit :=
  fun w => (World (fs w) (stdin w) (stdout w ++ [line s]), Ok tt).

(** [input(prompt)]: shows the prompt and returns the next line, without its
    terminator. *)
Definition input (prompt : string) : M string :=
  fun w =>
    let w' := World (fs w) (stdin w) (stdout w ++ [prompt]) in
    match stdin w with
    | [] => (w', Raise EOFError)
    | answer :: rest => (World (fs w) rest (stdout w'), Ok answer)
    end.

(** [os.path.isfile(path)]. *)
Definition isfile (path : string) : M bool :=
  fun w => (w, Ok (bool_decide (is_Some (fs w !! path)))).

(** [with open(path, 'w') as fp: print(text, file=fp)]: the file is created or
    truncated and holds [text] and a line terminator. Every path can be opened
    for writing here: directories and permissions are not part of the
    world. *)
Definition write_line (path text : string) : M unit :=
  fun w => (World (<[path := line text]> (fs w)) (stdin w) (stdout w), Ok tt).

(** ** The table [pandas] builds *)

(** A [DataFrame] read from a file: the header, and one list of cells per data
    line. A line shorter than the header stands for the same line with its
    missing cells empty, as [read_csv] fills it. *)
Record DataFrame : Type := Frame {
  columns : list string;
  data : list (list value)
}.

(** A row of the table: the labels and the cells under them. *)
Record Series : Type := Row {
  index : list string;
  cells : list value
}.

(** [len(df)]. *)
Definition len (df : DataFrame) : nat := length (data df).

(** [df.iloc[i]] for [0 <= i]. *)
Definition iloc (df : DataFrame) (i : nat) : outcome Series :=
  match data df !! i with
  | Some vs => Ok (Row (columns df) vs)
  | None => Raise IndexError
  end.

(** [df.columns = map(str.lower, df.columns)]. *)
Definition lower_columns (df : DataFrame) : DataFrame :=
  Frame (map lower (columns df)) (data df).

(** [label in df.columns]. *)
Definition has_column (df : DataFrame) (label : string) : bool :=
  existsb (String.eqb label) (columns df).

(** The cells of a row under a label, left to right. *)
Fixpoint labelled_from (index : list string) (cells : list value)
    (label : string) : list value :=
  match index with
  | [] => []
  | l :: index' =>
      (if String.eqb l label then [default nan (head cells)] else []) ++
      labelled_from index' (tail cells) label
  end.

Definition labelled (row : Series) (label : string) : list value :=
  labelled_from (index row) (cells row) label.

(** [re.search(pattern, v) is not None]: the subject must be a [str]. *)
Definition re_search (r : Re.regex) (v : value) : outcome bool :=
  match v with
  | Str s => Ok (Re.search r s)
  | NonStr _ => Raise TypeError
  end.

(** ** [str.format] and [repr]

    The fragment of [str.format] the template needs: literal text and
    replacement fields [{name}] filled from keyword arguments. Doubled braces,
    conversions and format specifications are outside it. *)

Definition map_ok {A B} (f : A -> B) (o : outcome A) : outcome B :=
  match o with
  | Ok a => Ok (f a)
  | Raise e => Raise e
  end.

Definition kwarg (name : string) (kw : list (string * value)) : option value :=
  snd <$> find (fun p => String.eqb (fst p) name) kw.

Definition field_char (c : ascii) : bool :=
  negb (Re.in_set (map Re.One (chars "{}!:.[]")) c).

(** [field] is [None] in literal text and holds the name read so far inside a
    replacement field. *)
Fixpoint format_from (t : string) (field : option string)
    (kw : list (string * value)) : outcome string :=
  match t, field with
  | EmptyString, None => Ok ""
  | EmptyString, Some _ => Raise (ValueError "expected '}' before end of string")
  | String c t', None =>
      if Ascii.eqb c "{" then format_from t' (Some "") kw
      else if Ascii.eqb c "}"
      then Raise (ValueError "Single '}' encountered in format string")
      else map_ok (String c) (format_from t' None kw)
  | String c t', Some name =>
      if Ascii.eqb c "}" then
        match kwarg name kw with
        | Some v => map_ok (String.append (str v)) (format_from t' None kw)
        | None => Raise (KeyError name)
        end
      else if field_char c then format_from t' (Some (name +:+ String c "")) kw
      else Raise (ValueError "unsupported replacement field")
  end.

Definition format (t : string) (kw : list (string * value)) : outcome string :=
  format_from t None kw.

(** [repr] of a list of plain strings, as an f-string shows it. *)
Definition repr_str (s : string) : string := "'" +:+ s +:+ "'".

Definition repr_list (l : list string) : string :=
  "[" +:+ String.concat ", " (map repr_str l) +:+ "]".

(** ** The program *)

(** [email_re = '[a-zA-Z0-9._%+-]+@[a-zA-Z0-9.-]+\.[a-zA-Z]{2,}'] *)
Definition email_re : Re.regex :=
  Re.Seq [
    Re.Plus (Re.Sym [Re.Range "a" "z"; Re.Range "A" "Z"; Re.Range "0" "9";
                     Re.One "."; Re.One "_"; Re.One "%"; Re.One "+"; Re.One "-"]);
    Re.Chr "@";
    Re.Plus (Re.Sym [Re.Range "a" "z"; Re.Range "A" "Z"; Re.Range "0" "9";
                     Re.One "."; Re.One "-"]);
    Re.Chr ".";
    Re.AtLeast 2 (Re.Sym [Re.Range "a" "z"; Re.Range "A" "Z"])
  ].

(** [phone_re = '^(?:\+?1[- ]?)?\(?([0-9]{3})\)?[- ]?([0-9]{3})[- ]?([0-9]{4})$'] *)
Definition phone_re : Re.regex :=
  Re.Seq [
    Re.Bol;
    Re.Opt (Re.Seq [Re.Opt (Re.Chr "+"); Re.Chr "1";
                    Re.Opt (Re.Sym [Re.One "-"; Re.One " "])]);
    Re.Opt (Re.Chr "(");
    Re.Rep 3 (Re.Sym [Re.Range "0" "9"]);
    Re.Opt (Re.Chr ")");
    Re.Opt (Re.Sym [Re.One "-"; Re.One " "]);
    Re.Rep 3 (Re.Sym [Re.Range "0" "9"]);
    Re.Opt (Re.Sym [Re.One "-"; Re.One " "]);
    Re.Rep 4 (Re.Sym [Re.Range "0" "9"]);
    Re.Eol
  ].

Definition vcard_format : string := "BEGIN:VCARD
VERSION:3.0
EMAIL:{email}
TEL;TYPE=cell,voice:{number}
FN:{fname} {lname}
END:VCARD
".

(** The six lines of a card, written out. *)
Definition vcard (email number fname lname : string) : string :=
  line "BEGIN:VCARD" +:+
  line "VERSION:3.0" +:+
  line ("EMAIL:" +:+ email) +:+
  line ("TEL;TYPE=cell,voice:" +:+ number) +:+
  line ("FN:" +:+ fname +:+ " " +:+ lname) +:+
  line "END:VCARD".

Definition required_cols : list string :=
  ["First name"; "Last name"; "Email"; "Phone"].

(** The parsed command line ([get_args] is [argparse]'s work): [-i] is
    required, [-o] defaults to ['contact_file.vcf']. *)
Record Namespace : Type := Args {
  args_input : string;
  args_output : string
}.

Section Program.

(** [pd.read_csv], from the contents of the file to the table, and the text
    [pandas] shows for a series: both belong to the library. *)
Variable read_csv : string -> outcome DataFrame.
Variable str_series : list value -> string.

(** [row[label]]: the cell when the label occurs once, a sub-series when it
    is repeated. *)
Definition getitem (row : Series) (label : string) : outcome value :=
  match labelled row label with
  | [] => Raise (KeyError label)
  | [v] => Ok v
  | vs => Ok (NonStr (str_series vs))
  end.

(** [pd.read_csv(path)]. *)
Definition pd_read_csv (path : string) : M DataFrame :=
  fun w =>
    match fs w !! path with
    | Some text => (w, read_csv text)
    | None => (w, Raise (FileNotFoundError path))
    end.

(** The f-string [f"{row['first name']} {row['last name']}"]. *)
Definition full_name (row : Series) : outcome string :=
  match getitem row "first name" with
  | Raise e => Raise e
  | Ok fname =>
      match getitem row "last name" with
      | Raise e => Raise e
      | Ok lname => Ok (str fname +:+ " " +:+ str lname)
      end
  end.

Definition verify_row (row : Series) : M bool :=
  let valid := true in
  let! phone := lift (getitem row "phone") in
  let! found := lift (re_search phone_re phone) in
  let! valid :=
    (if negb found then
       let! who := lift (full_name row) in
       print ("Bad Phone Number for " +:+ who) >> ret false
     else ret valid) in
  let! email := lift (getitem row "email") in
  let! found := lift (re_search email_re email) in
  let! valid :=
    (if negb found then
       let! who := lift (full_name row) in
       print ("Bad Email for " +:+ who) >> ret false
     else ret valid) in
  ret valid.

(** The body of [for i in range(len(contact_info))], over the indices still
    to visit. *)
Fixpoint main_loop (contact_info : DataFrame) (range : list nat)
    (output : string) (num_contacts_added : nat) : M (string * nat) :=
  match range with
  | [] => ret (output, num_contacts_added)
  | i :: range' =>
      let! row := lift (iloc contact_info i) in
      let! valid := verify_row row in
      (if negb valid
       then print "Skipping {row['first name']} {row['last name']}"
       else ret tt) >>
      let! email := lift (getitem row "email") in
      let! number := lift (getitem row "phone") in
      let! fname := lift (getitem row "first name") in
      let! lname := lift (getitem row "last name") in
      let! block := lift (format vcard_format
                            [("email", email); ("number", number);
                             ("fname", fname); ("lname", lname)]) in
      main_loop contact_info range' (output +:+ block) (num_contacts_added + 1)
  end.

(** The end of [main], from the question about an existing file on. *)
Definition main_publish (args : Namespace) (output : string)
    (num_contacts_added : nat) : M unit :=
  let! is_file := isfile (args_output args) in
  let! overwrite :=
    (if is_file
     then input ("Overwrite file " +:+ args_output args +:+ "? (Y or N): ")
     else ret "y") in
  if String.eqb (lower overwrite) "y" then
    write_line (args_output args) output >>
    print (str_of_nat num_contacts_added
           +:+ " contacts successfully published to file " +:+ args_output args)
  else
    print "Results not written to file".

Definition main (args : Namespace) : M unit :=
  let! is_file := isfile (args_input args) in
  if negb is_file then
    raise (ValueError ("Input file " +:+ args_input args +:+ " is not a valid file path"))
  else if negb (String.eqb (last_chars 4 (args_input args)) ".csv") then
    raise (ValueError "Must provide a CSV file as input")
  else if negb (String.eqb (last_chars 4 (args_output args)) ".vcf") then
    raise (ValueError "Output file must end with '.vcf'")
  else
    let! contact_info := pd_read_csv (args_input args) in
    let contact_info := lower_columns contact_info in
    if negb (forallb (fun col => has_column contact_info (lower col)) required_cols) then
      raise (ValueError ("Input CSV file must include the following columns: "
                         +:+ repr_list required_cols))
    else
      let! (output, num_contacts_added) :=
        main_loop contact_info (seq 0 (len contact_info)) "" 0 in
      print ("Successfully generated contact file for "
             +:+ str_of_nat num_contacts_added +:+ " people") >>
      main_publish args output num_contacts_added.

(** *** What a run is expected to produce *)

(** The text a cell contributes to a card or a message. *)
Definition field (row : Series) (label : string) : string :=
  match getitem row label with
  | Ok v => str v
  | Raise _ => ""
  end.

(** The card of a row: the six lines, in their order. *)
Definition card (row : Series) : string :=
  vcard (field row "email") (field row "phone")
        (field row "first name") (field row "last name").

Definition person (row : Series) : string :=
  field row "first name" +:+ " " +:+ field row "last name".

(** Whether [verify_row] finds the row valid, and the messages it prints. *)
Definition valid_row (row : Series) : bool :=
  Re.search phone_re (field row "phone") && Re.search email_re (field row "email").

Definition verify_warnings (row : Series) : list string :=
  (if Re.search phone_re (field row "phone") then []
   else [line ("Bad Phone Number for " +:+ person row)]) ++
  (if Re.search email_re (field row "email") then []
   else [line ("Bad Email for " +:+ person row)]).

(** The messages [main] prints for a row. *)
Definition warnings (row : Series) : list string :=
  verify_warnings row ++
  (if valid_row row then []
   else [line "Skipping {row['first name']} {row['last name']}"]).

End Program.

(** The rows of a table, top to bottom. *)
Definition rows (df : DataFrame) : list Series := map (Row (columns df)) (data df).

(** All four required columns are present once the header is lower-cased. *)
Definition has_required_cols (df : DataFrame) : bool :=
  forallb (fun col => has_column (lower_columns df) (lower col)) required_cols.

(** The phone and the email of a row are text: one cell each, holding a
    [str]. *)
Definition one_str (vs : list value) : bool :=
  match vs with
  | [Str _] => true
  | _ => false
  end.

Definition text_row (row : Series) : bool :=
  one_str (labelled row "phone") && one_str (labelled row "email").

Definition text_table (df : DataFrame) : bool :=
  forallb text_row (rows (lower_columns df)).

(** The document of a table: its cards, one after the other. *)
Definition join (blocks : list string) : string :=
  fold_right String.append "" blocks.

Definition cards (str_series : list value -> string) (df : DataFrame) : list string :=
  map (card str_series) (rows (lower_columns df)).

Definition document (str_series : list value -> string) (df : DataFrame) : string :=
  join (cards str_series df).

(** What the run has printed once the table is rendered: the messages of the
    rows, then the count. *)
Definition report (n : nat) : string :=
  line ("Successfully generated contact file for " +:+ str_of_nat n +:+ " people").

Definition rendered (str_series : list value -> string) (df : DataFrame)
    (w : world) : world :=
  World (fs w) (stdin w)
        (stdout w ++ concat (map (warnings str_series) (rows (lower_columns df)))
                  ++ [report (len df)]).

(** The answer that lets the write go ahead: the destination is new, or the
    next line on standard input lower-cases to [y]. *)
Definition go_ahead (args : Namespace) (w : world) : bool :=
  match fs w !! args_output args with
  | None => true
  | Some _ =>
      match stdin w with
      | [] => false
      | answer :: _ => String.eqb (lower answer) "y"
      end
  end.

(** The question about an existing destination and the two closing lines. *)
Definition question (args : Namespace) : string :=
  "Overwrite file " +:+ args_output args +:+ "? (Y or N): ".

Definition published (args : Namespace) (n : nat) : string :=
  line (str_of_nat n +:+ " contacts successfully published to file " +:+ args_output args).

Definition not_written : string := line "Results not written to file".




(** A computation that leaves the files and standard input as they are. *)
Definition keeps_files {A} (c : M A) : Prop :=
  forall w, fs (fst (c w)) = fs w /\ stdin (fst (c w)) = stdin w.

(** A row of four text cells under the canonical header. *)
Definition header : list string := ["first name"; "last name"; "email"; "phone"].

Definition contact (fname lname email phone : string) : Series :=
  Row header [Str fname; Str lname; Str email; Str phone].


(** The scenario of the specification: two contacts, the second with a bad
    email and a phone without separators, under a header in mixed case. *)
Definition example_csv : string := "First name,Last name,Email,Phone
Jane,Doe,jane@x.com,555-111-2222
Bob,Roe,bad-email,5551112222
".

Definition example_table : DataFrame :=
  Frame ["First name"; "Last name"; "Email"; "Phone"]
        [[Str "Jane"; Str "Doe"; Str "jane@x.com"; Str "555-111-2222"];
         [Str "Bob"; Str "Roe"; Str "bad-email"; Str "5551112222"]].

(** A file whose phone column holds only digits: [pandas] reads that column
    as integers. *)
Definition numeric_csv : string := "first name,last name,email,phone
Bob,Roe,bob@x.com,5551112222
".

Definition numeric_phones : DataFrame :=
  Frame header [[Str "Bob"; Str "Roe"; Str "bob@x.com"; NonStr "5551112222"]].

(** A header and no data line, and a header without the phone column. *)
Definition empty_csv : string := "First name,Last name,Email,Phone
".

Definition empty_table : DataFrame :=
  Frame ["First name"; "Last name"; "Email"; "Phone"] [].

Definition no_phone_csv : string := "first name,last name,email
Jane,Doe,jane@x.com
".

Definition no_phone_table : DataFrame :=
  Frame ["first name"; "last name"; "email"]
        [[Str "Jane"; Str "Doe"; Str "jane@x.com"]].

(** What [pd.read_csv] makes of these files, and of an empty file, on which it
    raises for want of a header. *)
Definition example_read (text : string) : outcome DataFrame :=
  if String.eqb text example_csv then Ok example_table
  else if String.eqb text numeric_csv then Ok numeric_phones
  else if String.eqb text empty_csv then Ok empty_table
  else if String.eqb text no_phone_csv then Ok no_phone_table
  else if String.eqb text "" then Raise (ParserError "No columns to parse from file")
  else Raise (ParserError "not one of the example files").

Definition example_args : Namespace := Args "contacts.csv" "contact_file.vcf".

Definition no_series (vs : list value) : string := "".

(** A world where [contacts.csv] holds the given text and the destination is
    new, and one where the destination exists and the given answer is
    waiting. *)
Definition new_world (text : string) : world :=
  World {["contacts.csv" := text]} [] [].

Definition old_world (text answer : string) : world :=
  World (<["contact_file.vcf" := "old"]> {["contacts.csv" := text]}) [answer] [].

(** ** What a pattern can read

    Bounds that are read off a pattern: the characters it can read, how few
    and how many of them, a character every match holds, and whether it looks
    at what follows the match. *)

Fixpoint reads_only (cs : list Re.item) (r : Re.regex) : bool :=
  match r with
  | Re.Sym cs' =>
      forallb (fun c => implb (Re.in_set cs' c) (Re.in_set cs c)) Re.all_chars
  | Re.Cat r1 r2 | Re.Alt r1 r2 => reads_only cs r1 && reads_only cs r2
  | Re.Star r' => reads_only cs r'
  | _ => true
  end.

Fixpoint min_len (r : Re.regex) : nat :=
  match r with
  | Re.Sym _ => 1
  | Re.Cat r1 r2 => min_len r1 + min_len r2
  | Re.Alt r1 r2 => Nat.min (min_len r1) (min_len r2)
  | _ => 0
  end.

Fixpoint max_len (r : Re.regex) : option nat :=
  match r with
  | Re.Sym _ => Some 1
  | Re.Cat r1 r2 =>
      match max_len r1, max_len r2 with
      | Some n1, Some n2 => Some (n1 + n2)
      | _, _ => None
      end
  | Re.Alt r1 r2 =>
      match max_len r1, max_len r2 with
      | Some n1, Some n2 => Some (Nat.max n1 n2)
      | _, _ => None
      end
  | Re.Star _ => None
  | _ => Some 0
  end.

Fixpoint needs (c : ascii) (r : Re.regex) : bool :=
  match r with
  | Re.Sym cs =>
      forallb (fun c' => implb (Re.in_set cs c') (Ascii.eqb c' c)) Re.all_chars
  | Re.Cat r1 r2 => needs c r1 || needs c r2
  | Re.Alt r1 r2 => needs c r1 && needs c r2
  | _ => false
  end.

Fixpoint no_eol (r : Re.regex) : bool :=
  match r with
  | Re.Eol => false
  | Re.Cat r1 r2 | Re.Alt r1 r2 => no_eol r1 && no_eol r2
  | Re.Star r' => no_eol r'
  | _ => true
  end.

(** [$] occurs only where the pattern ends. *)
Fixpoint eol_at_end (r : Re.regex) : bool :=
  match r with
  | Re.Cat r1 r2 =>
      eol_at_end r2 && (no_eol r1 || (eol_at_end r1 && Re.empty_only r2))
  | Re.Alt r1 r2 => eol_at_end r1 && eol_at_end r2
  | Re.Star r' => no_eol r'
  | _ => true
  end.

(** The characters of a phone number: digits and [+], [(], [)], [-], space. *)
Definition phone_chars : list Re.item :=
  [Re.Range "0" "9"; Re.One "+"; Re.One "("; Re.One ")"; Re.One "-"; Re.One " "].

(** ** Tables side by side *)

(** The four canonical names. *)
Definition canonical_cols : list string := map lower required_cols.

(** Two rows with the same cells under the four canonical names. *)
Definition same_contact (row1 row2 : Series) : Prop :=
  forall label, In label canonical_cols -> labelled row1 label = labelled row2 label.

(** The scenario with its columns in another order and a column more. *)
Definition example_wide_table : DataFrame :=
  Frame ["Company"; "Phone"; "Email"; "Last name"; "First name"]
        [[Str "Acme"; Str "555-111-2222"; Str "jane@x.com"; Str "Doe"; Str "Jane"];
         [NonStr "nan"; Str "5551112222"; Str "bad-email"; Str "Roe"; Str "Bob"]].

(** A table with the rows of [df1] followed by those of [df2], under the
    header of [df1]. *)
Definition stacked (df1 df2 : DataFrame) : DataFrame :=
  Frame (columns df1) (data df1 ++ data df2).

(** A computation that leaves the files and standard input as they are and
    adds at most [n] entries to standard output, whether it returns or
    raises. *)
Definition prints_at_most {A} (n : nat) (c : M A) : Prop :=
  forall w,
    fs (fst (c w)) = fs w /\
    stdin (fst (c w)) = stdin w /\
    exists printed, stdout (fst (c w)) = stdout w ++ printed /\ length printed <= n.

(** The three ways the files and standard input can be left: untouched; a
    line read and nothing written; the destination written, with a line read
    exactly when it existed. *)
Definition left_as (args : Namespace) (w : world)
    (files : gmap string string) (lines : list string) : Prop :=
  (files = fs w /\ lines = stdin w) \/
  (files = fs w /\ is_Some (fs w !! args_output args) /\ lines = tail (stdin w)) \/
  (exists doc,
     files = <[args_output args := line doc]> (fs w) /\
     ((fs w !! args_output args = None /\ lines = stdin w) \/
      (is_Some (fs w !! args_output args) /\ lines = tail (stdin w)))).

(** The line [main] prints for a row that [verify_row] finds invalid. *)
Definition skipping : string := line "Skipping {row['first name']} {row['last name']}".

(** The two name columns occur once each in the lower-cased header, so that
    a name is a cell of the row and not a sub-series. *)
Definition label_once (label : string) (cols : list string) : bool :=
  Nat.eqb (length (List.filter (String.eqb label) cols)) 1.

Definition names_once (df : DataFrame) : bool :=
  label_once "first name" (columns (lower_columns df)) &&
  label_once "last name" (columns (lower_columns df)).

(** * Facts *)

(** ** The matcher decides [Match] *)

Section Matcher.

Import Re.

Lemma after_nil bol : after bol [] = bol.
Proof. unfold after. apply andb_true_r. Qed.

Lemma after_cons bol c m : after bol (c :: m) = false.
Proof. unfold after. apply andb_false_r. Qed.

Lemma after_app bol m1 m2 : after (after bol m1) m2 = after bol (m1 ++ m2).
Proof.
  destruct m1 as [|c m1]; [by rewrite after_nil|].
  by rewrite after_cons, <- app_comm_cons, after_cons.
Qed.

Lemma after_nonempty bol m : m <> [] -> after bol m = false.
Proof. destruct m; [done|]. intros _. apply after_cons. Qed.

(** A continuation that accepts more makes the matcher accept more. *)
Lemma star_loop_mono step :
  step_mono step ->
  forall fuel1 fuel2 bol s k1 k2,
    fuel1 <= fuel2 -> cont_le k1 k2 ->
    star_loop step fuel1 bol s k1 = true -> star_loop step fuel2 bol s k2 = true.
Proof.
  intros Hstep fuel1.
  induction fuel1 as [|fuel1 IH]; intros fuel2 bol s k1 k2 Hle Hk; simpl.
  - rewrite orb_false_r. intros H. destruct fuel2; simpl; rewrite (Hk _ _ H); done.
  - destruct fuel2 as [|fuel2]; [lia|]. simpl.
    rewrite !orb_true_iff. intros [H|H]; [left; by apply Hk|right].
    revert H. apply Hstep. intros bol' s'.
    rewrite !andb_true_iff. intros [Hlt H]. split; [done|].
    revert H. apply IH; [lia|done].
Qed.

Lemma run_mono r : step_mono (run r).
Proof.
  induction r as [|cs| | |r1 IH1 r2 IH2|r1 IH1 r2 IH2|r IH];
    intros bol s k1 k2 Hk; simpl.
  - apply Hk.
  - destruct s as [|c s]; [done|].
    rewrite !andb_true_iff. intros [? ?]. split; [done|by apply Hk].
  - rewrite !andb_true_iff. intros [? ?]. split; [done|by apply Hk].
  - rewrite !andb_true_iff. intros [? ?]. split; [done|by apply Hk].
  - apply IH1. intros bol' s'. by apply IH2.
  - rewrite !orb_true_iff. intros [H|H]; [left; revert H; by apply IH1|].
    right; revert H; by apply IH2.
  - by apply star_loop_mono.
Qed.

Lemma star_loop_sound r :
  (forall bol s k, run r bol s k = true ->
     exists m rest, s = m ++ rest /\ Match r bol m rest /\ k (after bol m) rest = true) ->
  forall fuel bol s k, star_loop (run r) fuel bol s k = true ->
    exists m rest, s = m ++ rest /\ Match (Star r) bol m rest /\ k (after bol m) rest = true.
Proof.
  intros Hr fuel.
  induction fuel as [|fuel IH]; intros bol s k; simpl; rewrite orb_true_iff.
  - intros [H|H]; [|done]. exists [], s. rewrite after_nil. eauto using Match.
  - intros [H|H]; [exists [], s; rewrite after_nil; eauto using Match|].
    apply Hr in H as (m1 & s1 & -> & Hm1 & H).
    apply andb_true_iff in H as [Hlt H]. apply Nat.ltb_lt in Hlt.
    assert (m1 <> []) as Hne.
    { intros ->. simpl in Hlt. lia. }
    apply IH in H as (m2 & rest & -> & Hm2 & H).
    rewrite (after_nonempty _ _ Hne) in Hm2, H.
    exists (m1 ++ m2), rest. rewrite <- app_assoc. split; [done|]. split.
    + by apply MStarS.
    + rewrite <- after_app, (after_nonempty _ _ Hne). done.
Qed.

Lemma run_sound r bol s k :
  run r bol s k = true ->
  exists m rest, s = m ++ rest /\ Match r bol m rest /\ k (after bol m) rest = true.
Proof.
  revert bol s k.
  induction r as [|cs| | |r1 IH1 r2 IH2|r1 IH1 r2 IH2|r IH]; intros bol s k; simpl.
  - intros H. exists [], s. rewrite after_nil. eauto using Match.
  - destruct s as [|c s]; [done|]. rewrite andb_true_iff. intros [Hc H].
    exists [c], s. rewrite after_cons. eauto using Match.
  - rewrite andb_true_iff. intros [-> H].
    exists [], s. rewrite after_nil. eauto using Match.
  - rewrite andb_true_iff. intros [He H].
    exists [], s. rewrite after_nil. eauto using Match.
  - intros H. apply IH1 in H as (m1 & s1 & -> & Hm1 & H).
    apply IH2 in H as (m2 & rest & -> & Hm2 & H).
    exists (m1 ++ m2), rest. rewrite <- app_assoc, <- after_app.
    eauto using Match.
  - rewrite orb_true_iff. intros [H|H].
    + apply IH1 in H as (m & rest & -> & Hm & H). eauto 6 using Match.
    + apply IH2 in H as (m & rest & -> & Hm & H). eauto 6 using Match.
  - by apply star_loop_sound.
Qed.

Lemma run_complete r bol m rest :
  Match r bol m rest ->
  forall k, k (after bol m) rest = true -> run r bol (m ++ rest) k = true.
Proof.
  induction 1 as [bol rest|cs bol c rest Hc|rest|bol rest He
                 |r1 r2 bol m1 m2 rest _ IH1 _ IH2
                 |r1 r2 bol m rest _ IH|r1 r2 bol m rest _ IH
                 |r bol rest|r bol m1 m2 rest Hne _ IH1 _ IH2]; intros k Hk; simpl.
  - by rewrite after_nil in Hk.
  - rewrite after_cons in Hk. by rewrite Hc, Hk.
  - by rewrite after_nil in Hk.
  - rewrite after_nil in Hk. by rewrite He, Hk.
  - rewrite <- app_assoc. apply IH1. apply IH2. by rewrite after_app.
  - by rewrite IH.
  - rewrite IH; [apply orb_true_r|done].
  - rewrite after_nil in Hk.
    destruct (length rest); simpl; by rewrite Hk.
  - destruct m1 as [|c m1]; [done|].
    rewrite <- app_comm_cons, after_cons in Hk.
    rewrite <- app_assoc. simpl.
    apply orb_true_iff. right.
    rewrite app_comm_cons. apply IH1. rewrite after_cons.
    apply andb_true_iff. split.
    { apply Nat.ltb_lt. simpl. rewrite !length_app. lia. }
    specialize (IH2 k Hk). simpl in IH2. revert IH2.
    apply star_loop_mono; [apply run_mono|rewrite !length_app; lia|by intros ??].
Qed.

(** [re.search] finds a pattern exactly when some part of the subject is
    matched by it. *)
Lemma search_from_spec r s : forall bol,
  search_from r bol s = true <->
  exists pre m post, s = pre ++ m ++ post /\ Match r (after bol pre) m post.
Proof.
  induction s as [|c s IH]; intros bol; simpl; rewrite orb_true_iff; split.
  - intros [H|H]; [|done].
    apply run_sound in H as (m & post & -> & Hm & _).
    exists [], m, post. by rewrite after_nil.
  - intros (pre & m & post & Hs & Hm). left.
    symmetry in Hs. apply app_eq_nil in Hs as [-> Hs].
    rewrite after_nil in Hm. rewrite <- Hs.
    by apply (run_complete _ _ _ _ Hm).
  - intros [H|H].
    + apply run_sound in H as (m & post & -> & Hm & _).
      exists [], m, post. by rewrite after_nil.
    + apply IH in H as (pre & m & post & -> & Hm).
      exists (c :: pre), m, post. by rewrite after_cons.
  - intros (pre & m & post & Hs & Hm).
    destruct pre as [|c' pre].
    + left. rewrite after_nil in Hm. simpl in Hs. rewrite Hs.
      by apply (run_complete _ _ _ _ Hm).
    + right. simpl in Hs. injection Hs as -> ->.
      apply IH. exists pre, m, post. by rewrite after_cons in Hm.
Qed.

(** Without [^] and [$] a match does not depend on where it sits. *)
Lemma Match_unanchored r bol m rest :
  Match r bol m rest -> unanchored r = true ->
  forall bol' rest', Match r bol' m rest'.
Proof.
  induction 1; simpl; intros Hu bol' rest';
    try discriminate; try apply andb_true_iff in Hu as [? ?];
    eauto using Match.
Qed.

Lemma search_from_substring r pre s post bol :
  unanchored r = true ->
  search_from r bol s = true ->
  search_from r bol (pre ++ s ++ post) = true.
Proof.
  intros Hu H. apply search_from_spec in H as (p & m & q & -> & Hm).
  apply search_from_spec. exists (pre ++ p), m, (q ++ post).
  rewrite <- !app_assoc. split; [done|].
  by apply (Match_unanchored _ _ _ _ Hm).
Qed.

Lemma Match_opens_with_bol r bol m rest :
  Match r bol m rest -> opens_with_bol r = true -> bol = true.
Proof. induction 1; simpl; intros Ho; try discriminate; auto. Qed.

Lemma Match_closes_with_eol r bol m rest :
  Match r bol m rest -> closes_with_eol r = true -> at_eol rest = true.
Proof.
  induction 1 as [| | | |r1 r2 bol m1 m2 rest H1 IH1 H2 IH2| | | |];
    simpl; intros Hc; try discriminate; auto.
  destruct r2; auto.
  inversion H2; subst. auto.
Qed.

(** With both anchors the pattern has to match the subject from its first
    character to its end, or to the line terminator that ends it. *)
Lemma search_anchored r s :
  opens_with_bol r = true -> closes_with_eol r = true ->
  search_from r true s = true <->
  exists m tail, s = m ++ tail /\ at_eol tail = true /\ Match r true m tail.
Proof.
  intros Ho Hc. rewrite search_from_spec. split.
  - intros (pre & m & post & -> & Hm).
    pose proof (Match_opens_with_bol _ _ _ _ Hm Ho) as Hb.
    destruct pre as [|c pre]; [|by rewrite after_cons in Hb].
    rewrite after_nil in Hm. exists m, post. split; [done|]. split; [|done].
    by apply (Match_closes_with_eol _ _ _ _ Hm).
  - intros (m & tail & -> & _ & Hm). exists [], m, tail. by rewrite after_nil.
Qed.

End Matcher.

Lemma chars_app s1 s2 : chars (s1 +:+ s2) = chars s1 ++ chars s2.
Proof. induction s1 as [|c s1 IH]; simpl; [done|]. unfold chars in *. simpl. by rewrite <- IH. Qed.

(** ** Strings *)

Lemma string_app_cons c s1 s2 : String c s1 +:+ s2 = String c (s1 +:+ s2).
Proof. reflexivity. Qed.

Lemma string_app_assoc s1 s2 s3 : (s1 +:+ s2) +:+ s3 = s1 +:+ (s2 +:+ s3).
Proof.
  induction s1 as [|c s1 IH]; [done|].
  by rewrite !string_app_cons, IH.
Qed.

Lemma string_app_nil_r s : s +:+ "" = s.
Proof.
  induction s as [|c s IH]; [done|].
  by rewrite string_app_cons, IH.
Qed.

Lemma string_length_app s1 s2 :
  String.length (s1 +:+ s2) = String.length s1 + String.length s2.
Proof.
  induction s1 as [|c s1 IH]; [done|].
  rewrite string_app_cons. simpl. by rewrite IH.
Qed.

Lemma string_drop_app s1 s2 : string_drop (String.length s1) (s1 +:+ s2) = s2.
Proof.
  induction s1 as [|c s1 IH]; [by destruct s2|].
  by rewrite string_app_cons.
Qed.

(** The slice [s[-4:]] of a path that ends in a four-character extension is
    that extension. *)
Lemma last_chars_ext stem ext :
  String.length ext = 4 -> last_chars 4 (stem +:+ ext) = ext.
Proof.
  intros Hlen. unfold last_chars.
  rewrite string_length_app, Hlen.
  replace (String.length stem + 4 - 4) with (String.length stem) by lia.
  apply string_drop_app.
Qed.

Lemma last_app_two {A} (l : list A) a b : last (l ++ [a; b]) = Some b.
Proof. change [a; b] with ([a] ++ [b]). by rewrite app_assoc, last_snoc. Qed.

Lemma join_app l1 l2 : join (l1 ++ l2) = join l1 +:+ join l2.
Proof.
  induction l1 as [|b l1 IH]; [done|].
  change (b +:+ join (l1 ++ l2) = (b +:+ join l1) +:+ join l2).
  by rewrite IH, string_app_assoc.
Qed.

(** ** The template *)

Lemma format_vcard_format email number fname lname :
  format vcard_format
    [("email", email); ("number", number); ("fname", fname); ("lname", lname)]
  = Ok (vcard (str email) (str number) (str fname) (str lname)).
Proof.
  unfold vcard, line. rewrite !string_app_assoc. reflexivity.
Qed.

(** ** Sequencing *)

Lemma bind_ok {A B} (c : M A) (k : A -> M B) w w' a :
  c w = (w', Ok a) -> bind c k w = k a w'.
Proof. intros H. unfold bind. by rewrite H. Qed.

(** ** Rows and their cells *)

Lemma labelled_from_nonempty idx vs label :
  existsb (String.eqb label) idx = true -> labelled_from idx vs label <> [].
Proof.
  revert vs. induction idx as [|l idx IH]; intros vs; simpl; [done|].
  rewrite orb_true_iff, String.eqb_sym. intros [->|H]; [done|].
  destruct (String.eqb l label); [done|]. by apply IH.
Qed.

Section Cells.

Variable str_series : list value -> string.

Lemma getitem_present row label :
  existsb (String.eqb label) (index row) = true ->
  exists v, getitem str_series row label = Ok v /\ field str_series row label = str v.
Proof.
  intros H. apply (labelled_from_nonempty _ (cells row)) in H.
  unfold field, getitem, labelled.
  destruct (labelled_from _ _ _) as [|v [|v' vs]]; [done| |]; eauto.
Qed.

Lemma getitem_one_str row label :
  one_str (labelled row label) = true ->
  exists s, getitem str_series row label = Ok (Str s) /\ field str_series row label = s.
Proof.
  unfold field, getitem.
  destruct (labelled row label) as [|[s|] [|v' vs]]; try done. eauto.
Qed.

(** A row whose phone and email are text, under a header with both name
    columns: [verify_row] returns, having printed its warnings. *)
Lemma verify_row_run row w :
  text_row row = true ->
  existsb (String.eqb "first name") (index row) = true ->
  existsb (String.eqb "last name") (index row) = true ->
  verify_row str_series row w =
    (World (fs w) (stdin w) (stdout w ++ verify_warnings str_series row),
     Ok (valid_row str_series row)).
Proof.
  intros Ht Hf Hl. apply andb_true_iff in Ht as [Hp He].
  apply getitem_one_str in Hp as (p & Hp & Hfp).
  apply getitem_one_str in He as (e & He & Hfe).
  apply getitem_present in Hf as (vf & Hf & Hff).
  apply getitem_present in Hl as (vl & Hl & Hfl).
  unfold verify_row, valid_row, verify_warnings, person, full_name, bind, lift.
  rewrite Hp, He, Hfp, Hfe, Hff, Hfl, Hf, Hl. simpl.
  destruct w as [files lines out]. simpl.
  destruct (Re.search phone_re p), (Re.search email_re e); simpl;
    rewrite ?app_nil_r, <- ?app_assoc; reflexivity.
Qed.

Lemma card_format row vf vl p e :
  getitem str_series row "email" = Ok e ->
  getitem str_series row "phone" = Ok p ->
  getitem str_series row "first name" = Ok vf ->
  getitem str_series row "last name" = Ok vl ->
  format vcard_format [("email", e); ("number", p); ("fname", vf); ("lname", vl)]
  = Ok (card str_series row).
Proof.
  intros He Hp Hf Hl. rewrite format_vcard_format.
  unfold card, field. by rewrite He, Hp, Hf, Hl.
Qed.

(** One round of the loop on a row whose phone and email are text. *)
Lemma main_loop_step df i range row output n w :
  existsb (String.eqb "first name") (columns df) = true ->
  existsb (String.eqb "last name") (columns df) = true ->
  data df !! i = Some (cells row) ->
  index row = columns df ->
  text_row row = true ->
  main_loop str_series df (i :: range) output n w =
    main_loop str_series df range (output +:+ card str_series row) (n + 1)
      (World (fs w) (stdin w) (stdout w ++ warnings str_series row)).
Proof.
  intros Hf Hl Hi Hidx Hrow. destruct row as [idx vs]. simpl in Hi, Hidx. subst idx.
  set (row := Row (columns df) vs) in *.
  assert (iloc df i = Ok row) as Hiloc by (unfold iloc; by rewrite Hi).
  pose proof Hrow as Hcells. apply andb_true_iff in Hcells as [Hp He].
  apply getitem_one_str in Hp as (p & Hp & _).
  apply getitem_one_str in He as (e & He & _).
  destruct (getitem_present row "first name" Hf) as (vf & Hgf & _).
  destruct (getitem_present row "last name" Hl) as (vl & Hgl & _).
  simpl. unfold bind at 1. unfold lift at 1. rewrite Hiloc.
  unfold bind at 1. rewrite (verify_row_run row w Hrow Hf Hl).
  unfold bind, lift. rewrite He, Hp, Hgf, Hgl.
  rewrite (card_format row vf vl (Str p) (Str e) He Hp Hgf Hgl).
  unfold warnings.
  destruct (valid_row str_series row); simpl; by rewrite ?app_nil_r, <- ?app_assoc.
Qed.

(** The loop, from any point on: every remaining row adds its card to the
    document and one to the count. *)
Lemma main_loop_run df :
  existsb (String.eqb "first name") (columns df) = true ->
  existsb (String.eqb "last name") (columns df) = true ->
  forall rest seen output n w,
    data df = seen ++ rest ->
    forallb text_row (map (Row (columns df)) rest) = true ->
    main_loop str_series df (seq (length seen) (length rest)) output n w =
      (World (fs w) (stdin w)
             (stdout w ++ concat (map (warnings str_series) (map (Row (columns df)) rest))),
       Ok (output +:+ join (map (card str_series) (map (Row (columns df)) rest)),
           n + length rest)).
Proof.
  intros Hf Hl rest.
  induction rest as [|vs rest IH]; intros seen output n w Hdata Ht.
  - simpl. unfold ret. destruct w. simpl.
    by rewrite app_nil_r, string_app_nil_r, Nat.add_0_r.
  - simpl in Ht. apply andb_true_iff in Ht as [Hrow Ht]. simpl seq.
    rewrite (main_loop_step df _ _ (Row (columns df) vs)); try done;
      [|by rewrite Hdata, list_lookup_middle].
    specialize (IH (seen ++ [vs])). rewrite length_app in IH. simpl in IH.
    replace (length seen + 1) with (S (length seen)) in IH by lia.
    rewrite IH; [|by rewrite <- app_assoc|done]. simpl.
    rewrite <- app_assoc, string_app_assoc.
    replace (n + S (length rest)) with (n + 1 + length rest) by lia.
    reflexivity.
Qed.

(** A row whose phone or email is not text: [verify_row] raises [TypeError]. *)
Lemma verify_row_raise row w :
  text_row row = false ->
  existsb (String.eqb "phone") (index row) = true ->
  existsb (String.eqb "email") (index row) = true ->
  existsb (String.eqb "first name") (index row) = true ->
  existsb (String.eqb "last name") (index row) = true ->
  exists w', verify_row str_series row w = (w', Raise TypeError) /\ fs w' = fs w.
Proof.
  intros Ht Hp He Hf Hl.
  apply getitem_present in Hf as (vf & Hf & _).
  apply getitem_present in Hl as (vl & Hl & _).
  apply (labelled_from_nonempty _ (cells row)) in Hp, He.
  unfold text_row, labelled in Ht.
  unfold verify_row, full_name, bind, lift, getitem, labelled in *.
  destruct (labelled_from (index row) (cells row) "phone") as [|[p|x] [|v vs]];
    try done; simpl; eauto.
  destruct (labelled_from (index row) (cells row) "email") as [|[e|x] [|v vs]];
    try done; simpl;
    destruct (Re.search phone_re p); simpl; rewrite ?Hf, ?Hl; simpl; eauto.
Qed.

(** The loop over rows of which one has a phone or an email that is not
    text: it raises [TypeError], and no file has changed. *)
Lemma main_loop_raise df :
  existsb (String.eqb "phone") (columns df) = true ->
  existsb (String.eqb "email") (columns df) = true ->
  existsb (String.eqb "first name") (columns df) = true ->
  existsb (String.eqb "last name") (columns df) = true ->
  forall rest seen output n w,
    data df = seen ++ rest ->
    forallb text_row (map (Row (columns df)) rest) = false ->
    exists w',
      main_loop str_series df (seq (length seen) (length rest)) output n w
      = (w', Raise TypeError) /\ fs w' = fs w.
Proof.
  intros Hp He Hf Hl rest.
  induction rest as [|vs rest IH]; intros seen output n w Hdata Ht; [done|].
  simpl in Ht. simpl seq.
  assert (data df !! length seen = Some vs) as Hi
    by (by rewrite Hdata, list_lookup_middle).
  destruct (text_row (Row (columns df) vs)) eqn:Hrow.
  - rewrite (main_loop_step df _ _ (Row (columns df) vs)); try done.
    specialize (IH (seen ++ [vs])). rewrite length_app in IH. simpl in IH.
    replace (length seen + 1) with (S (length seen)) in IH by lia.
    edestruct IH as (w' & Hloop & Hfs); [by rewrite <- app_assoc|done|].
    exists w'. split; [exact Hloop|exact Hfs].
  - destruct (verify_row_raise (Row (columns df) vs) w Hrow Hp He Hf Hl)
      as (w' & Hv & Hfs).
    exists w'. split; [|done].
    simpl. unfold bind at 1, lift at 1, iloc. rewrite Hi.
    unfold bind at 1. by rewrite Hv.
Qed.

End Cells.

(** ** The run *)

Section Run.

Variable read_csv : string -> outcome DataFrame.
Variable str_series : list value -> string.

Lemma has_required_cols_names df :
  has_required_cols df = true ->
  existsb (String.eqb "first name") (columns (lower_columns df)) = true /\
  existsb (String.eqb "last name") (columns (lower_columns df)) = true.
Proof.
  unfold has_required_cols, required_cols, has_column. simpl.
  rewrite !andb_true_iff. tauto.
Qed.

Lemma has_required_cols_cells df :
  has_required_cols df = true ->
  existsb (String.eqb "phone") (columns (lower_columns df)) = true /\
  existsb (String.eqb "email") (columns (lower_columns df)) = true.
Proof.
  unfold has_required_cols, required_cols, has_column. simpl.
  rewrite !andb_true_iff. tauto.
Qed.

(** Past the four checks, over a table whose phones and emails are text, [main]
    renders every row, prints the count and goes on to publish. *)
Lemma main_run args w text df :
  fs w !! args_input args = Some text ->
  last_chars 4 (args_input args) = ".csv" ->
  last_chars 4 (args_output args) = ".vcf" ->
  read_csv text = Ok df ->
  has_required_cols df = true ->
  text_table df = true ->
  main read_csv str_series args w =
    main_publish args (document str_series df) (len df) (rendered str_series df w).
Proof.
  intros Hin Hcsv Hvcf Hread Hcols Htext.
  destruct (has_required_cols_names df Hcols) as [Hf Hl].
  unfold main, bind at 1, isfile. rewrite Hin, Hcsv, Hvcf.
  rewrite bool_decide_eq_true_2 by eauto. simpl.
  unfold bind at 1, pd_read_csv. rewrite Hin, Hread.
  unfold has_required_cols in Hcols. simpl in Hcols. rewrite Hcols. simpl.
  unfold bind at 1.
  pose proof (main_loop_run str_series (lower_columns df) Hf Hl
                (data df) [] "" 0 w eq_refl Htext) as Hloop.
  simpl in Hloop. unfold len. simpl. rewrite Hloop.
  unfold bind at 1, print. simpl.
  unfold document, cards, rendered, report, rows, len. simpl.
  by rewrite <- app_assoc.
Qed.

(** Over a table with a phone or an email that is not text the run ends in
    [TypeError] before the count is printed, and no file has changed. *)
Lemma main_not_text args w text df :
  fs w !! args_input args = Some text ->
  last_chars 4 (args_input args) = ".csv" ->
  last_chars 4 (args_output args) = ".vcf" ->
  read_csv text = Ok df ->
  has_required_cols df = true ->
  text_table df = false ->
  exists w', main read_csv str_series args w = (w', Raise TypeError) /\ fs w' = fs w.
Proof.
  intros Hin Hcsv Hvcf Hread Hcols Htext.
  destruct (has_required_cols_names df Hcols) as [Hf Hl].
  destruct (has_required_cols_cells df Hcols) as [Hp He].
  destruct (main_loop_raise str_series (lower_columns df) Hp He Hf Hl
              (data df) [] "" 0 w eq_refl Htext) as (w' & Hloop & Hfs).
  exists w'. split; [|done].
  unfold main, bind at 1, isfile. rewrite Hin, Hcsv, Hvcf.
  rewrite bool_decide_eq_true_2 by eauto. simpl.
  unfold bind at 1, pd_read_csv. rewrite Hin, Hread.
  unfold has_required_cols in Hcols. simpl in Hcols. rewrite Hcols. simpl.
  unfold bind at 1. simpl in Hloop. unfold len. simpl. by rewrite Hloop.
Qed.

(** The last step, case by case. *)
Lemma main_publish_new args output n w :
  fs w !! args_output args = None ->
  main_publish args output n w =
    (World (<[args_output args := line output]> (fs w)) (stdin w)
           (stdout w ++ [published args n]), Ok tt).
Proof.
  intros Hnew. unfold main_publish, bind at 1, isfile. rewrite Hnew.
  rewrite bool_decide_eq_false_2 by (intros [? ?]; done). reflexivity.
Qed.

Lemma main_publish_yes args output n w old answer rest :
  fs w !! args_output args = Some old ->
  stdin w = answer :: rest ->
  lower answer = "y" ->
  main_publish args output n w =
    (World (<[args_output args := line output]> (fs w)) rest
           (stdout w ++ [question args; published args n]), Ok tt).
Proof.
  intros Hold Hin Hy. unfold main_publish, bind at 1, isfile. rewrite Hold.
  rewrite bool_decide_eq_true_2 by eauto.
  unfold bind at 1, input. rewrite Hin, Hy. simpl.
  unfold bind, write_line, print, published, question. simpl.
  by rewrite <- app_assoc.
Qed.

Lemma main_publish_no args output n w old answer rest :
  fs w !! args_output args = Some old ->
  stdin w = answer :: rest ->
  lower answer <> "y" ->
  main_publish args output n w =
    (World (fs w) rest
           (stdout w ++ [question args; not_written]), Ok tt).
Proof.
  intros Hold Hin Hy. unfold main_publish, bind at 1, isfile. rewrite Hold.
  rewrite bool_decide_eq_true_2 by eauto.
  unfold bind at 1, input. rewrite Hin.
  apply String.eqb_neq in Hy. rewrite Hy. simpl.
  unfold print, question. simpl.
  by rewrite <- app_assoc.
Qed.

Lemma main_publish_eof args output n w old :
  fs w !! args_output args = Some old ->
  stdin w = [] ->
  main_publish args output n w =
    (World (fs w) [] (stdout w ++ [question args]), Raise EOFError).
Proof.
  intros Hold Hin. unfold main_publish, bind at 1, isfile. rewrite Hold.
  rewrite bool_decide_eq_true_2 by eauto.
  unfold bind at 1, input. rewrite Hin. reflexivity.
Qed.

End Run.

(** ** Nothing but the last step touches the files *)

Section Frame.

Variable read_csv : string -> outcome DataFrame.
Variable str_series : list value -> string.

Lemma keeps_ret {A} (a : A) : keeps_files (ret a).
Proof. by intros w. Qed.

Lemma keeps_raise {A} e : keeps_files (@raise A e).
Proof. by intros w. Qed.

Lemma keeps_lift {A} (o : outcome A) : keeps_files (lift o).
Proof. by intros w. Qed.

Lemma keeps_print s : keeps_files (print s).
Proof. by intros w. Qed.

Lemma keeps_isfile path : keeps_files (isfile path).
Proof. by intros w. Qed.

Lemma keeps_pd_read_csv path : keeps_files (pd_read_csv read_csv path).
Proof. intros w. unfold pd_read_csv. by destruct (fs w !! path). Qed.

Lemma keeps_bind {A B} (c : M A) (k : A -> M B) :
  keeps_files c -> (forall a, keeps_files (k a)) -> keeps_files (bind c k).
Proof.
  intros Hc Hk w. unfold bind. specialize (Hc w).
  destruct (c w) as [w' [a|e]]; simpl in *; [|done].
  destruct (Hk a w') as [-> ->]. done.
Qed.

Ltac keeps :=
  repeat first
    [ apply keeps_ret | apply keeps_raise | apply keeps_lift | apply keeps_print
    | apply keeps_isfile | apply keeps_pd_read_csv
    | apply keeps_bind; [|intros ?]
    | match goal with |- keeps_files (if ?b then _ else _) => destruct b end ].

Lemma keeps_verify_row row : keeps_files (verify_row str_series row).
Proof. unfold verify_row. keeps. Qed.

Lemma keeps_main_loop df range : forall output n,
  keeps_files (main_loop str_series df range output n).
Proof.
  induction range as [|i range IH]; intros output n; simpl; [apply keeps_ret|].
  keeps; try apply keeps_verify_row. apply IH.
Qed.

(** Without the go-ahead the last step writes nothing. *)
Lemma main_publish_frame args output n w :
  go_ahead args w = false -> fs (fst (main_publish args output n w)) = fs w.
Proof.
  unfold go_ahead. destruct (fs w !! args_output args) as [old|] eqn:Hold; [|done].
  destruct (stdin w) as [|answer rest] eqn:Hin.
  - intros _. by rewrite (main_publish_eof _ _ _ _ _ Hold Hin).
  - intros Hy. apply String.eqb_neq in Hy.
    by rewrite (main_publish_no _ _ _ _ _ _ _ Hold Hin Hy).
Qed.

Lemma bind_frame {A B} (c : M A) (k : A -> M B) w :
  keeps_files c ->
  (forall a w', fs w' = fs w -> stdin w' = stdin w -> fs (fst (k a w')) = fs w) ->
  fs (fst (bind c k w)) = fs w.
Proof.
  intros Hc Hk. unfold bind. destruct (Hc w) as [Hfs Hin].
  destruct (c w) as [w' [a|e]]; simpl in *; [|done]. by apply Hk.
Qed.

(** Whatever the table and however the run ends: without the go-ahead the
    files are as they were. *)
Lemma main_frame args w :
  go_ahead args w = false -> fs (fst (main read_csv str_series args w)) = fs w.
Proof.
  intros Hgo. unfold main.
  apply bind_frame; [apply keeps_isfile|]. intros is_file w1 Hfs1 Hin1.
  repeat match goal with |- context [if ?b then _ else _] => destruct b end;
    try done.
  rewrite <- Hfs1. apply bind_frame; [apply keeps_pd_read_csv|].
  intros df w2 Hfs2 Hin2.
  match goal with |- context [if ?b then _ else _] => destruct b end;
    [done|].
  rewrite <- Hfs2. apply bind_frame; [apply keeps_main_loop|].
  intros [output n] w3 Hfs3 Hin3.
  rewrite <- Hfs3. apply bind_frame; [apply keeps_print|].
  intros _ w4 Hfs4 Hin4. rewrite <- Hfs4. apply main_publish_frame.
  unfold go_ahead in *. by rewrite Hfs4, Hin4, Hfs3, Hin3, Hfs2, Hin2, Hfs1, Hin1.
Qed.

End Frame.

(** ** The last character of a match *)

Section LastChar.

Import Re.

Lemma all_chars_all c : In c all_chars.
Proof.
  unfold all_chars. apply in_map_iff. exists (nat_of_ascii c). split.
  - apply ascii_nat_embedding.
  - apply in_seq. pose proof (nat_ascii_bounded c). lia.
Qed.

Lemma Match_empty_only r bol m rest :
  Match r bol m rest -> empty_only r = true -> m = [].
Proof.
  induction 1 as [| | | |r1 r2 bol m1 m2 rest _ IH1 _ IH2| | | |];
    simpl; intros He; try discriminate; try done.
  apply andb_true_iff in He as [He1 He2]. by rewrite IH1, IH2.
Qed.

Lemma Match_ends_in cs r bol m rest :
  Match r bol m rest -> ends_in cs r = true ->
  exists m' c, m = m' ++ [c] /\ in_set cs c = true.
Proof.
  induction 1 as [|cs' bol c rest Hc| | |r1 r2 bol m1 m2 rest _ IH1 H2 IH2
                 |r1 r2 bol m rest _ IH|r1 r2 bol m rest _ IH| |];
    cbn [ends_in]; intros He; try discriminate.
  - rewrite forallb_forall in He. specialize (He c (all_chars_all c)).
    rewrite Hc in He. exists [], c. done.
  - apply orb_true_iff in He as [He|He].
    + destruct (IH2 He) as (m' & c & -> & Hc). exists (m1 ++ m'), c.
      by rewrite app_assoc.
    + apply andb_true_iff in He as [He2 He1].
      rewrite (Match_empty_only _ _ _ _ H2 He2), app_nil_r. by apply IH1.
  - apply andb_true_iff in He as [He _]. by apply IH.
  - apply andb_true_iff in He as [_ He]. by apply IH.
Qed.

End LastChar.

(** ** Letter case *)







Lemma lower_length s : String.length (lower s) = String.length s.
Proof. induction s as [|c s IH]; simpl; [done|]. by rewrite IH. Qed.


(** The two extension checks: a wrong ending of either name raises its
    [ValueError] in the world as it was, before the file is read. *)
Lemma main_input_extension read_csv str_series args w text :
  fs w !! args_input args = Some text ->
  last_chars 4 (args_input args) <> ".csv" ->
  main read_csv str_series args w
  = (w, Raise (ValueError "Must provide a CSV file as input")).
Proof.
  intros Hin Hcsv. unfold main, bind at 1, isfile. rewrite Hin.
  rewrite bool_decide_eq_true_2 by eauto.
  apply String.eqb_neq in Hcsv. by rewrite Hcsv.
Qed.

Lemma main_output_extension read_csv str_series args w text :
  fs w !! args_input args = Some text ->
  last_chars 4 (args_input args) = ".csv" ->
  last_chars 4 (args_output args) <> ".vcf" ->
  main read_csv str_series args w
  = (w, Raise (ValueError "Output file must end with '.vcf'")).
Proof.
  intros Hin Hcsv Hvcf. unfold main, bind at 1, isfile. rewrite Hin, Hcsv.
  rewrite bool_decide_eq_true_2 by eauto.
  apply String.eqb_neq in Hvcf. by rewrite Hvcf.
Qed.

(** With the go-ahead the last step writes the document and says so. *)
Lemma main_publish_go_ahead args output n w :
  go_ahead args w = true ->
  let (w', result) := main_publish args output n w in
  result = Ok tt /\
  fs w' = <[args_output args := line output]> (fs w) /\
  last (stdout w') = Some (published args n).
Proof.
  unfold go_ahead. destruct (fs w !! args_output args) as [old|] eqn:Hold.
  - destruct (stdin w) as [|answer rest] eqn:Hans; [done|].
    rewrite String.eqb_eq. intros Hy.
    rewrite (main_publish_yes _ _ _ _ old answer rest) by done.
    split; [done|]. split; [done|]. apply last_app_two.
  - intros _. rewrite main_publish_new by done.
    split; [done|]. split; [done|]. apply last_snoc.
Qed.

(** * The claims *)

(** C1, at the input where the code breaks it: a table with the four required
    columns and one row whose phone column holds only digits. [pandas] reads
    the column as integers, [re.search] raises [TypeError] on the first row,
    and the run ends there, with nothing printed, no card and no count, where
    one card and a count of 1 are due. *)
Lemma C1_numeric_phone_aborts :
  has_required_cols numeric_phones = true /\
  len numeric_phones = 1 /\
  main example_read no_series example_args (new_world numeric_csv)
  = (new_world numeric_csv, Raise TypeError).
Proof. repeat split. Qed.

(** X18: for a table with the four required columns whose phones and emails
    are text, the run renders one card per row, in row order and whether or
    not the row is valid, prints the number of rows as the count of contacts,
    and goes on to publish the document made of these cards. *)
Theorem one_card_per_text_row read_csv str_series args w text df :
  fs w !! args_input args = Some text ->
  last_chars 4 (args_input args) = ".csv" ->
  last_chars 4 (args_output args) = ".vcf" ->
  read_csv text = Ok df ->
  has_required_cols df = true ->
  text_table df = true ->
  length (cards str_series df) = len df /\
  (forall i row, rows (lower_columns df) !! i = Some row ->
                 cards str_series df !! i = Some (card str_series row)) /\
  last (stdout (rendered str_series df w))
  = Some (line ("Successfully generated contact file for "
                +:+ str_of_nat (len df) +:+ " people")) /\
  main read_csv str_series args w
  = main_publish args (join (cards str_series df)) (len df) (rendered str_series df w).
Proof.
  intros Hin Hcsv Hvcf Hread Hcols Htext. split; [|split; [|split]].
  - unfold cards, rows, len. simpl. by rewrite !length_map.
  - intros i row Hrow. unfold cards. by rewrite list_lookup_fmap, Hrow.
  - unfold rendered. simpl. by rewrite app_assoc, last_snoc.
  - by apply (main_run _ _ _ _ text).
Qed.

Lemma one_card_per_text_row_witness :
  length (cards no_series example_table) = 2 /\
  main example_read no_series example_args (new_world example_csv)
  = main_publish example_args (join (cards no_series example_table)) 2
      (rendered no_series example_table (new_world example_csv)).
Proof.
  destruct (one_card_per_text_row example_read no_series example_args
              (new_world example_csv) example_csv example_table
              eq_refl eq_refl eq_refl eq_refl eq_refl eq_refl)
    as (Hlen & _ & _ & Hmain).
  split; [exact Hlen|exact Hmain].
Defined.

(** C2: a card is the six lines [BEGIN:VCARD], [VERSION:3.0], [EMAIL:],
    [TEL;TYPE=cell,voice:], [FN:] and [END:VCARD] of the template in that
    order, with the values put in as they are; and when the write goes ahead
    the destination holds the cards of the rows, one after the other, and one
    more line terminator. *)
Theorem C2_card_lines_and_written_document read_csv str_series args w text df :
  fs w !! args_input args = Some text ->
  last_chars 4 (args_input args) = ".csv" ->
  last_chars 4 (args_output args) = ".vcf" ->
  read_csv text = Ok df ->
  has_required_cols df = true ->
  text_table df = true ->
  go_ahead args w = true ->
  (forall email number fname lname : string,
     format vcard_format [("email", Str email); ("number", Str number);
                          ("fname", Str fname); ("lname", Str lname)]
     = Ok (line "BEGIN:VCARD" +:+ line "VERSION:3.0" +:+
           line ("EMAIL:" +:+ email) +:+
           line ("TEL;TYPE=cell,voice:" +:+ number) +:+
           line ("FN:" +:+ fname +:+ " " +:+ lname) +:+
           line "END:VCARD")) /\
  fs (fst (main read_csv str_series args w))
  = <[args_output args :=
        join (map (card str_series) (rows (lower_columns df))) +:+ String nl ""]> (fs w).
Proof.
  intros Hin Hcsv Hvcf Hread Hcols Htext Hgo. split.
  - intros. apply (format_vcard_format (Str email) (Str number) (Str fname) (Str lname)).
  - rewrite (main_run _ _ _ _ text df) by done.
    unfold go_ahead in Hgo.
    destruct (fs w !! args_output args) as [old|] eqn:Hold.
    + destruct (stdin w) as [|answer rest] eqn:Hans; [done|].
      apply String.eqb_eq in Hgo.
      by rewrite (main_publish_yes _ _ _ _ old answer rest).
    + by rewrite main_publish_new.
Qed.

Lemma C2_witness :
  fs (fst (main example_read no_series example_args (new_world example_csv)))
  = <["contact_file.vcf" :=
        join (map (card no_series) (rows (lower_columns example_table))) +:+ String nl ""]>
      (fs (new_world example_csv)).
Proof.
  apply (C2_card_lines_and_written_document
           example_read no_series example_args (new_world example_csv)
           example_csv example_table);
    reflexivity.
Defined.

(** C3, as stated, fails for the phone: ["555-123-4567"] passes the phone
    check, and the same value with the characters ["xyz"] after it does not. *)
Lemma C3_phone_with_trailing_text_fails :
  re_search phone_re (Str "555-123-4567") = Ok true /\
  re_search phone_re (Str ("" +:+ "555-123-4567" +:+ "xyz")) = Ok false.
Proof. split; reflexivity. Qed.

(** C3, amended: the email check is a search for the pattern anywhere in the
    value, so a value that contains a passing email passes, whatever comes
    before and after it. The phone check is not: its pattern begins with [^]
    and ends with [$], so the pattern has to match the value from its first
    character to its end, or to the line terminator that ends it; a value that
    ends in anything but a digit or a line terminator fails. *)
Theorem C3_email_anywhere_phone_whole_value :
  (forall pre s post,
     re_search email_re (Str s) = Ok true ->
     re_search email_re (Str (pre +:+ s +:+ post)) = Ok true) /\
  (forall s,
     re_search phone_re (Str s) = Ok true <->
     exists m tail,
       chars s = m ++ tail /\ Re.at_eol tail = true /\ Re.Match phone_re true m tail) /\
  (forall s c,
     re_search phone_re (Str (s +:+ String c "")) = Ok true ->
     Re.in_set [Re.Range "0" "9"] c = true \/ c = nl).
Proof.
  assert (forall r s, re_search r (Str s) = Ok true <-> Re.search r s = true) as Hre.
  { intros r s. simpl. split; [by intros [= ->]|by intros ->]. }
  split; [|split].
  - intros pre s post. rewrite !Hre. unfold Re.search.
    rewrite !chars_app. by apply search_from_substring.
  - intros s. rewrite Hre. by apply search_anchored.
  - intros s c. rewrite Hre. unfold Re.search.
    rewrite (search_anchored phone_re) by reflexivity.
    intros (m & tail & Hs & Htail & Hm).
    apply (Match_ends_in [Re.Range "0" "9"]) in Hm as (m' & d & -> & Hd);
      [|by vm_compute].
    rewrite chars_app in Hs. change (chars (String c "")) with [c] in Hs.
    destruct tail as [|x [|y tail]]; [| |done].
    + rewrite app_nil_r in Hs. apply app_inj_tail in Hs as [_ ->]. by left.
    + simpl in Htail. apply Ascii.eqb_eq in Htail as ->.
      rewrite <- app_assoc in Hs. change ([d] ++ [nl]) with ([d] ++ [] ++ [nl]) in Hs.
      rewrite !app_assoc in Hs. apply app_inj_tail in Hs as [_ ->]. by right.
Qed.

Lemma C3_witness :
  re_search email_re (Str ("<" +:+ "a.b+c@example.co" +:+ ">, after lunch")) = Ok true.
Proof.
  apply (proj1 C3_email_anywhere_phone_whole_value "<" "a.b+c@example.co" ">, after lunch").
  reflexivity.
Defined.

(** C4: the files change only with the go-ahead, which is a destination that
    does not exist yet or an answer that lower-cases to [y]. Whatever the table
    and however the run ends, without it every file is as it was; a run that
    gets as far as the question and is answered otherwise has printed its
    messages, the question and that nothing was written, and returns; with the
    go-ahead the destination holds the document and the closing line says
    so. *)
Theorem C4_write_needs_go_ahead read_csv str_series args w :
  (go_ahead args w = true <->
   fs w !! args_output args = None \/
   exists answer rest, stdin w = answer :: rest /\ lower answer = "y") /\
  (go_ahead args w = false -> fs (fst (main read_csv str_series args w)) = fs w) /\
  (forall text df,
     fs w !! args_input args = Some text ->
     last_chars 4 (args_input args) = ".csv" ->
     last_chars 4 (args_output args) = ".vcf" ->
     read_csv text = Ok df ->
     has_required_cols df = true ->
     text_table df = true ->
     (forall old answer rest,
        fs w !! args_output args = Some old ->
        stdin w = answer :: rest ->
        lower answer <> "y" ->
        main read_csv str_series args w
        = (World (fs w) rest
                 (stdout (rendered str_series df w) ++ [question args; not_written]),
           Ok tt)) /\
     (go_ahead args w = true ->
        let (w', result) := main read_csv str_series args w in
        result = Ok tt /\
        fs w' = <[args_output args := line (document str_series df)]> (fs w) /\
        last (stdout w') = Some (published args (len df)))).
Proof.
  split; [|split].
  - unfold go_ahead. destruct (fs w !! args_output args) as [old|]; [|by split; auto].
    destruct (stdin w) as [|answer rest].
    + split; [done|]. by intros [|(? & ? & ? & _)].
    + rewrite String.eqb_eq. split; [by eauto|].
      by intros [|(? & ? & [= -> ->] & ?)].
  - apply main_frame.
  - intros text df Hin Hcsv Hvcf Hread Hcols Htext.
    rewrite (main_run _ _ _ _ text df) by done. split.
    + intros old answer rest Hold Hans Hy.
      by rewrite (main_publish_no _ _ _ _ old answer rest).
    + intros Hgo.
      apply (main_publish_go_ahead args (document str_series df) (len df)
               (rendered str_series df w) Hgo).
Qed.

Lemma C4_witness :
  fs (fst (main example_read no_series example_args (old_world example_csv "No")))
  = fs (old_world example_csv "No") /\
  main example_read no_series example_args (old_world example_csv "No")
  = (World (fs (old_world example_csv "No")) []
           (stdout (rendered no_series example_table (old_world example_csv "No"))
            ++ [question example_args; not_written]),
     Ok tt).
Proof.
  destruct (C4_write_needs_go_ahead example_read no_series example_args
              (old_world example_csv "No"))
    as (_ & Hframe & Hrun).
  split; [by apply Hframe|].
  destruct (Hrun example_csv example_table eq_refl eq_refl eq_refl eq_refl eq_refl eq_refl)
    as [Hno _].
  apply (Hno "old" "No" []); [reflexivity|reflexivity|discriminate].
Defined.

(** C5: each of the four fatal conditions ends the run with its [ValueError]
    and leaves the world as it was: nothing printed, nothing written. The
    input must be an existing file, then its name must end in [.csv], then
    the name of the output must end in [.vcf], and only then is the file
    parsed, whatever the parser would have done with it, and its header
    checked for the four columns. *)
Theorem C5_fatal_conditions read_csv str_series args w :
  (fs w !! args_input args = None ->
   main read_csv str_series args w
   = (w, Raise (ValueError ("Input file " +:+ args_input args
                            +:+ " is not a valid file path")))) /\
  (forall text,
     fs w !! args_input args = Some text ->
     last_chars 4 (args_input args) <> ".csv" ->
     main read_csv str_series args w
     = (w, Raise (ValueError "Must provide a CSV file as input"))) /\
  (forall text,
     fs w !! args_input args = Some text ->
     last_chars 4 (args_input args) = ".csv" ->
     last_chars 4 (args_output args) <> ".vcf" ->
     main read_csv str_series args w
     = (w, Raise (ValueError "Output file must end with '.vcf'"))) /\
  (forall text df,
     fs w !! args_input args = Some text ->
     last_chars 4 (args_input args) = ".csv" ->
     last_chars 4 (args_output args) = ".vcf" ->
     read_csv text = Ok df ->
     has_required_cols df = false ->
     main read_csv str_series args w
     = (w, Raise (ValueError
         "Input CSV file must include the following columns: ['First name', 'Last name', 'Email', 'Phone']"))).
Proof.
  repeat split.
  - intros Hin. unfold main, bind, isfile. rewrite Hin.
    by rewrite bool_decide_eq_false_2 by (by intros [? ?]).
  - intros text. apply main_input_extension.
  - intros text. apply main_output_extension.
  - intros text df Hin Hcsv Hvcf Hread Hcols.
    unfold main, bind at 1, isfile. rewrite Hin, Hcsv, Hvcf.
    rewrite bool_decide_eq_true_2 by eauto. simpl.
    unfold bind at 1, pd_read_csv. rewrite Hin, Hread.
    unfold has_required_cols in Hcols. simpl in Hcols. by rewrite Hcols.
Qed.

Lemma C5_witness :
  main example_read no_series (Args "missing.csv" "contact_file.vcf")
       (new_world example_csv)
  = (new_world example_csv,
     Raise (ValueError "Input file missing.csv is not a valid file path")) /\
  main example_read no_series (Args "contacts.txt" "contact_file.vcf")
       (World {["contacts.txt" := example_csv]} [] [])
  = (World {["contacts.txt" := example_csv]} [] [],
     Raise (ValueError "Must provide a CSV file as input")) /\
  main example_read no_series (Args "contacts.csv" "contacts.txt")
       (new_world example_csv)
  = (new_world example_csv, Raise (ValueError "Output file must end with '.vcf'")) /\
  main example_read no_series example_args (new_world no_phone_csv)
  = (new_world no_phone_csv, Raise (ValueError
      "Input CSV file must include the following columns: ['First name', 'Last name', 'Email', 'Phone']")).
Proof.
  split; [|split; [|split]].
  - by apply (proj1 (C5_fatal_conditions example_read no_series
                       (Args "missing.csv" "contact_file.vcf") (new_world example_csv))).
  - by apply (proj1 (proj2 (C5_fatal_conditions example_read no_series
                       (Args "contacts.txt" "contact_file.vcf")
                       (World {["contacts.txt" := example_csv]} [] [])))
                example_csv).
  - by apply (proj1 (proj2 (proj2 (C5_fatal_conditions example_read no_series
                       (Args "contacts.csv" "contacts.txt") (new_world example_csv))))
                example_csv).
  - by apply (proj2 (proj2 (proj2 (C5_fatal_conditions example_read no_series
                       example_args (new_world no_phone_csv))))
                no_phone_csv no_phone_table).
Defined.

(** C6: the phone check finds ["555-123-4567"] and ["(555) 123-4567"] valid and
    ["12345"] invalid; [verify_row] on a row with a good email returns true for
    the first two and, for the third, prints the warning about the phone and
    returns false. *)
Theorem C6_phone_examples str_series fname lname w :
  re_search phone_re (Str "555-123-4567") = Ok true /\
  re_search phone_re (Str "(555) 123-4567") = Ok true /\
  re_search phone_re (Str "12345") = Ok false /\
  verify_row str_series (contact fname lname "jane@x.com" "555-123-4567") w
  = (w, Ok true) /\
  verify_row str_series (contact fname lname "jane@x.com" "(555) 123-4567") w
  = (w, Ok true) /\
  verify_row str_series (contact fname lname "jane@x.com" "12345") w
  = (World (fs w) (stdin w)
           (stdout w ++ [line ("Bad Phone Number for " +:+ fname +:+ " " +:+ lname)]),
     Ok false).
Proof.
  repeat split; try reflexivity;
    rewrite verify_row_run by reflexivity; destruct w; simpl;
    rewrite ?app_nil_r; reflexivity.
Qed.

(** C7: the email check finds ["a.b+c@example.co"] valid and ["not-an-email"]
    invalid; [verify_row] on a row with a good phone returns true for the
    first and, for the second, prints the warning about the email and returns
    false. *)
Theorem C7_email_examples str_series fname lname w :
  re_search email_re (Str "a.b+c@example.co") = Ok true /\
  re_search email_re (Str "not-an-email") = Ok false /\
  verify_row str_series (contact fname lname "a.b+c@example.co" "555-123-4567") w
  = (w, Ok true) /\
  verify_row str_series (contact fname lname "not-an-email" "555-123-4567") w
  = (World (fs w) (stdin w)
           (stdout w ++ [line ("Bad Email for " +:+ fname +:+ " " +:+ lname)]),
     Ok false).
Proof.
  repeat split; try reflexivity;
    rewrite verify_row_run by reflexivity; destruct w; simpl;
    rewrite ?app_nil_r; reflexivity.
Qed.



(** C9: the two extension checks compare the last four characters with
    [.csv] and [.vcf] exactly. An existing input whose name ends in another
    casing of [.csv], such as [.CSV], is refused as not being a CSV file; with
    a good input, an output whose name ends in another casing of [.vcf], such
    as [.VCF], is refused as well. *)
Theorem C9_extensions_case_sensitive read_csv str_series w :
  (forall stem ext output text,
     fs w !! (stem +:+ ext) = Some text ->
     lower ext = ".csv" -> ext <> ".csv" ->
     main read_csv str_series (Args (stem +:+ ext) output) w
     = (w, Raise (ValueError "Must provide a CSV file as input"))) /\
  (forall input stem ext text,
     fs w !! input = Some text ->
     last_chars 4 input = ".csv" ->
     lower ext = ".vcf" -> ext <> ".vcf" ->
     main read_csv str_series (Args input (stem +:+ ext)) w
     = (w, Raise (ValueError "Output file must end with '.vcf'"))).
Proof.
  assert (forall ext low, lower ext = low -> String.length low = 4 ->
                          String.length ext = 4) as Hlen.
  { intros ext low <-. by rewrite lower_length. }
  split.
  - intros stem ext output text Hin Hlow Hne.
    apply (main_input_extension _ _ _ _ text); [done|].
    simpl. by rewrite (last_chars_ext stem ext (Hlen _ _ Hlow eq_refl)).
  - intros input stem ext text Hin Hcsv Hlow Hne.
    apply (main_output_extension _ _ _ _ text); [done|done|].
    simpl. by rewrite (last_chars_ext stem ext (Hlen _ _ Hlow eq_refl)).
Qed.

Lemma C9_witness :
  main example_read no_series (Args "contacts.CSV" "contact_file.vcf")
       (World {["contacts.CSV" := example_csv]} [] [])
  = (World {["contacts.CSV" := example_csv]} [] [],
     Raise (ValueError "Must provide a CSV file as input")) /\
  main example_read no_series (Args "contacts.csv" "contact_file.VCF")
       (new_world example_csv)
  = (new_world example_csv, Raise (ValueError "Output file must end with '.vcf'")).
Proof.
  split.
  - by apply (proj1 (C9_extensions_case_sensitive example_read no_series
                       (World {["contacts.CSV" := example_csv]} [] []))
                "contacts" ".CSV" "contact_file.vcf" example_csv).
  - by apply (proj2 (C9_extensions_case_sensitive example_read no_series
                       (new_world example_csv))
                "contacts.csv" "contact_file" ".VCF" example_csv).
Defined.

(** C10: a table with the required header and no data rows. The run renders no
    card and prints that the contact file was generated for 0 people; when the
    write goes ahead the run returns and the destination holds one line
    terminator and nothing else. *)
Theorem C10_empty_table read_csv str_series args w text df :
  fs w !! args_input args = Some text ->
  last_chars 4 (args_input args) = ".csv" ->
  last_chars 4 (args_output args) = ".vcf" ->
  read_csv text = Ok df ->
  has_required_cols df = true ->
  data df = [] ->
  cards str_series df = [] /\
  main read_csv str_series args w
  = main_publish args "" 0
      (World (fs w) (stdin w)
             (stdout w ++ [line "Successfully generated contact file for 0 people"])) /\
  (go_ahead args w = true ->
   let (w', result) := main read_csv str_series args w in
   result = Ok tt /\
   fs w' = <[args_output args := String nl ""]> (fs w) /\
   last (stdout w') = Some (published args 0)).
Proof.
  intros Hin Hcsv Hvcf Hread Hcols Hdata.
  assert (text_table df = true) as Htext.
  { unfold text_table, rows. simpl. by rewrite Hdata. }
  assert (cards str_series df = []) as Hcards.
  { unfold cards, rows. simpl. by rewrite Hdata. }
  assert (main read_csv str_series args w
          = main_publish args "" 0
              (World (fs w) (stdin w)
                 (stdout w ++ [line "Successfully generated contact file for 0 people"])))
    as Hmain.
  { rewrite (main_run _ _ _ _ text df) by done.
    unfold document, rendered, rows, len. rewrite Hcards. simpl. by rewrite Hdata. }
  split; [done|]. split; [done|].
  intros Hgo. rewrite Hmain.
  apply (main_publish_go_ahead args "" 0
           (World (fs w) (stdin w)
              (stdout w ++ [line "Successfully generated contact file for 0 people"]))
           Hgo).
Qed.

Lemma C10_witness :
  cards no_series empty_table = [] /\
  let (w', result) := main example_read no_series example_args (new_world empty_csv) in
  result = Ok tt /\
  fs w' = <["contact_file.vcf" := String nl ""]> (fs (new_world empty_csv)) /\
  last (stdout w') = Some (published example_args 0).
Proof.
  destruct (C10_empty_table example_read no_series example_args (new_world empty_csv)
              empty_csv empty_table eq_refl eq_refl eq_refl eq_refl eq_refl eq_refl)
    as (Hcards & _ & Hgo).
  split; [exact Hcards|exact (Hgo eq_refl)].
Defined.

(** * Further properties *)

(** ** The shape of what the patterns accept *)

Section Shape.

Import Re.

Lemma Match_reads_only cs r bol m rest :
  Match r bol m rest -> reads_only cs r = true ->
  Forall (fun c => in_set cs c = true) m.
Proof.
  induction 1 as [|cs' bol c rest Hc| | |r1 r2 bol m1 m2 rest _ IH1 _ IH2
                 |r1 r2 bol m rest _ IH|r1 r2 bol m rest _ IH
                 | |r bol m1 m2 rest _ _ IH1 _ IH2];
    cbn [reads_only]; intros Hr; try by constructor.
  - rewrite forallb_forall in Hr. specialize (Hr c (all_chars_all c)).
    rewrite Hc in Hr. by repeat constructor.
  - apply andb_true_iff in Hr as [H1 H2]. apply Forall_app. auto.
  - apply andb_true_iff in Hr as [H1 _]. auto.
  - apply andb_true_iff in Hr as [_ H2]. auto.
  - apply Forall_app. auto.
Qed.

Lemma Match_min_len r bol m rest : Match r bol m rest -> min_len r <= length m.
Proof.
  induction 1; simpl; rewrite ?length_app; simpl in *; lia.
Qed.

Lemma Match_max_len r bol m rest n :
  Match r bol m rest -> max_len r = Some n -> length m <= n.
Proof.
  intros H. revert n.
  induction H as [| | | |r1 r2 bol m1 m2 rest _ IH1 _ IH2
                 |r1 r2 bol m rest _ IH|r1 r2 bol m rest _ IH| |];
    simpl; intros n Hn; try discriminate; try (injection Hn as <-; simpl; lia).
  - destruct (max_len r1) as [n1|], (max_len r2) as [n2|]; try discriminate.
    injection Hn as <-. rewrite length_app.
    specialize (IH1 n1 eq_refl). specialize (IH2 n2 eq_refl). lia.
  - destruct (max_len r1) as [n1|], (max_len r2) as [n2|]; try discriminate.
    injection Hn as <-. specialize (IH n1 eq_refl). lia.
  - destruct (max_len r1) as [n1|], (max_len r2) as [n2|]; try discriminate.
    injection Hn as <-. specialize (IH n2 eq_refl). lia.
Qed.

Lemma Match_needs c r bol m rest :
  Match r bol m rest -> needs c r = true -> In c m.
Proof.
  induction 1 as [|cs bol c' rest Hc| | |r1 r2 bol m1 m2 rest _ IH1 _ IH2
                 |r1 r2 bol m rest _ IH|r1 r2 bol m rest _ IH| |];
    cbn [needs]; intros Hn; try discriminate.
  - rewrite forallb_forall in Hn. specialize (Hn c' (all_chars_all c')).
    rewrite Hc in Hn. apply Ascii.eqb_eq in Hn as ->. by left.
  - apply in_or_app. apply orb_true_iff in Hn as [Hn|Hn]; auto.
  - apply andb_true_iff in Hn as [Hn _]. auto.
  - apply andb_true_iff in Hn as [_ Hn]. auto.
Qed.

(** A pattern without [$] does not look at what follows the match. *)
Lemma Match_no_eol r bol m rest :
  Match r bol m rest -> no_eol r = true -> forall rest', Match r bol m rest'.
Proof.
  induction 1; simpl; intros Hn rest';
    try discriminate; try apply andb_true_iff in Hn as [? ?];
    eauto using Match.
Qed.

(** With [$] only at its end, a pattern matches before any end of line what it
    matches before one. *)
Lemma Match_eol_at_end r bol m rest :
  Match r bol m rest -> eol_at_end r = true ->
  forall rest', at_eol rest' = true -> Match r bol m rest'.
Proof.
  induction 1 as [| | | |r1 r2 bol m1 m2 rest H1 IH1 H2 IH2
                 |r1 r2 bol m rest _ IH|r1 r2 bol m rest _ IH
                 | |r bol m1 m2 rest Hne H1 _ H2 IH2];
    simpl; intros He rest' Hrest'; try by constructor.
  - apply andb_true_iff in He as [He2 He1]. apply MCat; [|by apply IH2].
    apply orb_true_iff in He1 as [Hno|He1].
    + by apply (Match_no_eol _ _ _ _ H1).
    + apply andb_true_iff in He1 as [He1 Hempty].
      pose proof (Match_empty_only _ _ _ _ H2 Hempty) as ->.
      simpl in *. by apply IH1.
  - apply andb_true_iff in He as [He _]. apply MAltL. by apply IH.
  - apply andb_true_iff in He as [_ He]. apply MAltR. by apply IH.
  - apply MStarS; [done| |by apply IH2].
    by apply (Match_no_eol _ _ _ _ H1).
Qed.

Lemma at_eol_cases tail : at_eol tail = true <-> tail = [] \/ tail = [nl].
Proof.
  destruct tail as [|c [|c' tail]]; simpl.
  - split; auto.
  - rewrite Ascii.eqb_eq. split; [intros ->; auto|by intros [|[= ->]]].
  - split; [done|by intros [|]].
Qed.

Lemma chars_length s : length (chars s) = String.length s.
Proof. induction s as [|c s IH]; simpl; [done|]. unfold chars in *. simpl. by rewrite IH. Qed.

End Shape.

Lemma re_search_true r s : re_search r (Str s) = Ok true <-> Re.search r s = true.
Proof. simpl. split; [by intros [= ->]|by intros ->]. Qed.

(** X1: a value that passes the phone check is made of 10 to 17 characters, each
    a digit or one of [+], [(], [)], [-] and space, with at most one line
    terminator after them. *)
Theorem phone_value_shape s :
  re_search phone_re (Str s) = Ok true ->
  exists m tail,
    chars s = m ++ tail /\ (tail = [] \/ tail = [nl]) /\
    10 <= length m <= 17 /\
    Forall (fun c => Re.in_set phone_chars c = true) m.
Proof.
  rewrite re_search_true. unfold Re.search.
  rewrite (search_anchored phone_re) by reflexivity.
  intros (m & tail & Hs & Htail & Hm). exists m, tail.
  split; [done|]. split; [by apply at_eol_cases|]. split; [split|].
  - apply (Match_min_len _ _ _ _ Hm).
  - by apply (Match_max_len _ _ _ _ 17 Hm).
  - apply (Match_reads_only _ _ _ _ _ Hm). by vm_compute.
Qed.

Lemma phone_value_shape_witness :
  exists m tail,
    chars "+1 (555) 123-4567" = m ++ tail /\ (tail = [] \/ tail = [nl]) /\
    10 <= length m <= 17 /\
    Forall (fun c => Re.in_set phone_chars c = true) m.
Proof. apply (phone_value_shape "+1 (555) 123-4567"). reflexivity. Defined.

(** X2: a value that passes the email check holds an [@] and a [.] and has at
    least six characters. *)
Theorem email_value_needs s :
  re_search email_re (Str s) = Ok true ->
  In "@"%char (chars s) /\ In "."%char (chars s) /\ 6 <= String.length s.
Proof.
  rewrite re_search_true. unfold Re.search. rewrite search_from_spec.
  intros (pre & m & post & Hs & Hm).
  rewrite <- chars_length, Hs, !length_app.
  pose proof (Match_min_len _ _ _ _ Hm) as Hlen.
  change (min_len email_re) with 6 in Hlen.
  split; [|split; [|lia]]; apply in_or_app; right; apply in_or_app; left.
  - apply (Match_needs _ _ _ _ _ Hm). by vm_compute.
  - apply (Match_needs _ _ _ _ _ Hm). by vm_compute.
Qed.

Lemma email_value_needs_witness :
  In "@"%char (chars "jane@x.com") /\ In "."%char (chars "jane@x.com") /\
  6 <= String.length "jane@x.com".
Proof. apply (email_value_needs "jane@x.com"). reflexivity. Defined.

(** X3: [$] also matches just before a line terminator that ends the value,
    so a value that passes the phone check and ends in a digit still passes
    with one line terminator after it. *)
Theorem phone_then_newline_passes s c :
  Re.in_set [Re.Range "0" "9"] c = true ->
  re_search phone_re (Str (s +:+ String c "")) = Ok true ->
  re_search phone_re (Str (s +:+ String c "" +:+ String nl "")) = Ok true.
Proof.
  intros Hc. rewrite !re_search_true. unfold Re.search.
  rewrite !(search_anchored phone_re) by reflexivity.
  intros (m & tail & Hs & Htail & Hm).
  rewrite chars_app in Hs. change (chars (String c "")) with [c] in Hs.
  apply at_eol_cases in Htail as [->| ->].
  - rewrite app_nil_r in Hs. exists m, [nl]. split; [|split; [done|]].
    + by rewrite !chars_app, <- Hs, <- app_assoc.
    + by apply (Match_eol_at_end _ _ _ _ Hm).
  - apply app_inj_tail in Hs as [_ ->]. by vm_compute in Hc.
Qed.

Lemma phone_then_newline_passes_witness :
  re_search phone_re (Str ("555-123-456" +:+ "7" +:+ String nl "")) = Ok true.
Proof.
  apply (phone_then_newline_passes "555-123-456" "7"); reflexivity.
Defined.

(** ** [verify_row] *)

Lemma labelled_from_absent idx vs label :
  existsb (String.eqb label) idx = false -> labelled_from idx vs label = [].
Proof.
  revert vs. induction idx as [|l idx IH]; intros vs; simpl; [done|].
  rewrite orb_false_iff, String.eqb_sym. intros [-> H]. by apply IH.
Qed.

(** X4: on a row whose phone and email are text, [verify_row] runs both checks
    whatever the first one gives: it prints the warning about the phone, then
    the one about the email, each only when its pattern is not found, and
    returns true exactly when both are found. *)
Theorem verify_row_checks_both str_series row w :
  text_row row = true ->
  existsb (String.eqb "first name") (index row) = true ->
  existsb (String.eqb "last name") (index row) = true ->
  verify_row str_series row w =
    (World (fs w) (stdin w)
       (stdout w
        ++ (if Re.search phone_re (field str_series row "phone") then []
            else [line ("Bad Phone Number for " +:+ field str_series row "first name"
                        +:+ " " +:+ field str_series row "last name")])
        ++ (if Re.search email_re (field str_series row "email") then []
            else [line ("Bad Email for " +:+ field str_series row "first name"
                        +:+ " " +:+ field str_series row "last name")])),
     Ok (Re.search phone_re (field str_series row "phone")
         && Re.search email_re (field str_series row "email"))).
Proof. intros Ht Hf Hl. by rewrite verify_row_run. Qed.

Lemma verify_row_checks_both_witness :
  verify_row no_series (contact "Bob" "Roe" "bad-email" "12345") (new_world example_csv)
  = (World (fs (new_world example_csv)) []
       [line "Bad Phone Number for Bob Roe"; line "Bad Email for Bob Roe"],
     Ok false).
Proof.
  apply (verify_row_checks_both no_series (contact "Bob" "Roe" "bad-email" "12345")
           (new_world example_csv)); reflexivity.
Defined.

Lemma prints_nothing {A} (c : M A) :
  (forall w, fst (c w) = w) -> prints_at_most 0 c.
Proof.
  intros H w. rewrite H. split; [done|]. split; [done|].
  exists []. by rewrite app_nil_r.
Qed.

Lemma prints_print s : prints_at_most 1 (print s).
Proof. intros w. split; [done|]. split; [done|]. by exists [line s]. Qed.

Lemma prints_bind {A B} n m (c : M A) (k : A -> M B) :
  prints_at_most n c -> (forall a, prints_at_most m (k a)) ->
  prints_at_most (n + m) (bind c k).
Proof.
  intros Hc Hk w. unfold bind. destruct (Hc w) as (Hfs & Hin & l1 & Hout & Hlen).
  destruct (c w) as [w1 [a|e]]; simpl in *.
  - destruct (Hk a w1) as (Hfs' & Hin' & l2 & Hout' & Hlen').
    rewrite Hfs', Hin', Hout', Hfs, Hin, Hout. split; [done|]. split; [done|].
    exists (l1 ++ l2). rewrite app_assoc, length_app. split; [done|lia].
  - split; [done|]. split; [done|]. exists l1. split; [done|lia].
Qed.

Lemma prints_more {A} n m (c : M A) :
  n <= m -> prints_at_most n c -> prints_at_most m c.
Proof.
  intros Hle Hc w. destruct (Hc w) as (Hfs & Hin & l & Hout & Hlen).
  split; [done|]. split; [done|]. exists l. split; [done|lia].
Qed.

(** X5: whatever the row, and whether it returns or raises, [verify_row] leaves
    the files and standard input alone and prints at most two lines. *)
Theorem verify_row_effects str_series row w :
  fs (fst (verify_row str_series row w)) = fs w /\
  stdin (fst (verify_row str_series row w)) = stdin w /\
  exists printed,
    stdout (fst (verify_row str_series row w)) = stdout w ++ printed /\
    length printed <= 2.
Proof.
  revert w. change (prints_at_most 2 (verify_row str_series row)).
  assert (forall (found : bool) (msg : string),
            prints_at_most 1
              (if negb found
               then bind (lift (full_name str_series row))
                      (fun who => bind (print (msg +:+ who)) (fun _ => ret false))
               else ret true)) as Hwarn.
  { intros [] msg; simpl.
    - by apply (prints_more 0); [lia|apply prints_nothing].
    - apply (prints_bind 0 1); [by apply prints_nothing|]. intros who.
      apply (prints_bind 1 0); [apply prints_print|]. intros _.
      by apply prints_nothing. }
  unfold verify_row.
  apply (prints_bind 0 2); [by apply prints_nothing|]. intros phone.
  apply (prints_bind 0 2); [by apply prints_nothing|]. intros found.
  apply (prints_bind 1 1); [apply Hwarn|]. intros valid.
  apply (prints_bind 0 1); [by apply prints_nothing|]. intros email.
  apply (prints_bind 0 1); [by apply prints_nothing|]. intros found'.
  apply (prints_bind 1 0); [|intros ?; by apply prints_nothing].
  destruct found'; simpl.
  - by apply (prints_more 0); [lia|apply prints_nothing].
  - apply (prints_bind 0 1); [by apply prints_nothing|]. intros who.
    apply (prints_bind 1 0); [apply prints_print|]. intros _.
    by apply prints_nothing.
Qed.

(** X6: a row without a [phone] label: the lookup raises [KeyError] for
    ['phone'] before anything is printed. *)
Theorem verify_row_missing_phone str_series row w :
  existsb (String.eqb "phone") (index row) = false ->
  verify_row str_series row w = (w, Raise (KeyError "phone")).
Proof.
  intros H. apply (labelled_from_absent _ (cells row)) in H.
  unfold verify_row, bind, lift, getitem, labelled. by rewrite H.
Qed.

Lemma verify_row_missing_phone_witness :
  verify_row no_series (Row ["first name"; "last name"; "email"]
                            [Str "Jane"; Str "Doe"; Str "jane@x.com"])
             (new_world no_phone_csv)
  = (new_world no_phone_csv, Raise (KeyError "phone")).
Proof. by apply verify_row_missing_phone. Defined.

(** ** What a run does to the files and to standard input *)

Lemma bind_keeps_inv {A B} (c : M A) (k : A -> M B) w
    (P : gmap string string -> list string -> Prop) :
  keeps_files c ->
  P (fs w) (stdin w) ->
  (forall a w1, fs w1 = fs w -> stdin w1 = stdin w ->
                P (fs (fst (k a w1))) (stdin (fst (k a w1)))) ->
  P (fs (fst (bind c k w))) (stdin (fst (bind c k w))).
Proof.
  intros Hc HP Hk. unfold bind. destruct (Hc w) as [Hfs Hin].
  destruct (c w) as [w1 [a|e]]; simpl in *; [by apply Hk|].
  by rewrite Hfs, Hin.
Qed.

Lemma main_publish_left_as args output n w :
  left_as args w (fs (fst (main_publish args output n w)))
                 (stdin (fst (main_publish args output n w))).
Proof.
  destruct (fs w !! args_output args) as [old|] eqn:Hold.
  - destruct (stdin w) as [|answer rest] eqn:Hin.
    + rewrite (main_publish_eof _ _ _ _ _ Hold Hin). left. by rewrite Hin.
    + destruct (decide (lower answer = "y")) as [Hy|Hy].
      * rewrite (main_publish_yes _ _ _ _ _ _ _ Hold Hin Hy).
        right; right. exists output. simpl. rewrite Hold, Hin. eauto.
      * rewrite (main_publish_no _ _ _ _ _ _ _ Hold Hin Hy).
        right; left. simpl. rewrite Hold, Hin. eauto.
  - rewrite (main_publish_new _ _ _ _ Hold). right; right. exists output.
    simpl. rewrite Hold. eauto.
Qed.

Lemma main_left_as read_csv str_series args w :
  left_as args w (fs (fst (main read_csv str_series args w)))
                 (stdin (fst (main read_csv str_series args w))) /\
  (fs (fst (main read_csv str_series args w)) <> fs w ->
   last_chars 4 (args_input args) = ".csv" /\ last_chars 4 (args_output args) = ".vcf").
Proof.
  set (P := fun files lines =>
              left_as args w files lines /\
              (files <> fs w ->
               last_chars 4 (args_input args) = ".csv" /\
               last_chars 4 (args_output args) = ".vcf")).
  change (P (fs (fst (main read_csv str_series args w)))
            (stdin (fst (main read_csv str_series args w)))).
  assert (P (fs w) (stdin w)) as HP by (split; [by left|done]).
  assert (forall w1, fs w1 = fs w -> stdin w1 = stdin w -> P (fs w1) (stdin w1)) as Hsame.
  { intros w1 -> ->. exact HP. }
  unfold main.
  apply bind_keeps_inv; [apply keeps_isfile|done|]. intros is_file w1 Hfs1 Hin1.
  destruct (negb is_file); [by apply Hsame|].
  destruct (String.eqb (last_chars 4 (args_input args)) ".csv") eqn:Hcsv;
    [|by apply Hsame].
  destruct (String.eqb (last_chars 4 (args_output args)) ".vcf") eqn:Hvcf;
    [|by apply Hsame].
  apply String.eqb_eq in Hcsv, Hvcf. cbn [negb].
  assert (forall {A B} (c : M A) (k : A -> M B) w2,
            fs w2 = fs w -> stdin w2 = stdin w -> keeps_files c ->
            (forall a w3, fs w3 = fs w -> stdin w3 = stdin w ->
                          P (fs (fst (k a w3))) (stdin (fst (k a w3)))) ->
            P (fs (fst (bind c k w2))) (stdin (fst (bind c k w2)))) as Hstep.
  { intros A B c k w2 Hfs2 Hin2 Hc Hk. unfold bind. destruct (Hc w2) as [Hfs Hin].
    destruct (c w2) as [w3 [a|e]]; simpl in *.
    - apply Hk; congruence.
    - apply Hsame; congruence. }
  apply Hstep; [done|done|apply keeps_pd_read_csv|]. intros df w2 Hfs2 Hin2.
  destruct (negb _); [by apply Hsame|].
  apply Hstep; [done|done|apply keeps_main_loop|]. intros [output n] w3 Hfs3 Hin3.
  apply Hstep; [done|done|apply keeps_print|]. intros _ w4 Hfs4 Hin4.
  split; [|done].
  pose proof (main_publish_left_as args output n w4) as H.
  unfold left_as in *. by rewrite Hfs4, Hin4 in H.
Qed.

(** X7: whatever the table and however the run ends, no file other than the
    destination is created, removed or changed, and the input file is as it
    was. *)
Theorem main_touches_only_destination read_csv str_series args w :
  (forall path, path <> args_output args ->
     fs (fst (main read_csv str_series args w)) !! path = fs w !! path) /\
  fs (fst (main read_csv str_series args w)) !! args_input args
  = fs w !! args_input args.
Proof.
  destruct (main_left_as read_csv str_series args w) as [Hleft Hext].
  assert (forall path, path <> args_output args ->
            fs (fst (main read_csv str_series args w)) !! path = fs w !! path) as Hother.
  { intros path Hne.
    destruct Hleft as [[-> _]|[(-> & _)|(doc & -> & _)]]; try done.
    by apply lookup_insert_ne. }
  split; [done|].
  destruct (decide (fs (fst (main read_csv str_series args w)) = fs w)) as [->|Hne];
    [done|].
  destruct (Hext Hne) as [Hcsv Hvcf]. apply Hother. intros Heq.
  rewrite Heq, Hvcf in Hcsv. discriminate.
Qed.

Lemma main_touches_only_destination_witness :
  fs (fst (main example_read no_series example_args (new_world example_csv)))
    !! "contacts.csv" = Some example_csv.
Proof.
  apply (proj1 (main_touches_only_destination example_read no_series example_args
                  (new_world example_csv)) "contacts.csv").
  discriminate.
Defined.

(** X8: a run reads at most one line from standard input, and none when the
    destination does not exist. *)
Theorem main_reads_at_most_one_line read_csv str_series args w :
  (stdin (fst (main read_csv str_series args w)) = stdin w \/
   stdin (fst (main read_csv str_series args w)) = tail (stdin w)) /\
  (fs w !! args_output args = None ->
   stdin (fst (main read_csv str_series args w)) = stdin w).
Proof.
  destruct (main_left_as read_csv str_series args w) as [Hleft _].
  split.
  - destruct Hleft as [[_ ->]|[(_ & _ & ->)|(doc & _ & [[_ ->]|[_ ->]])]]; auto.
  - intros Hnew.
    destruct Hleft as [[_ ->]|[(_ & [? Hsome] & _)|(doc & _ & [[_ ->]|[[? Hsome] _]])]];
      congruence.
Qed.

Lemma main_reads_at_most_one_line_witness :
  stdin (fst (main example_read no_series example_args
                (World {["contacts.csv" := example_csv]} ["y"; "more"] [])))
  = ["y"; "more"].
Proof.
  apply (proj2 (main_reads_at_most_one_line example_read no_series example_args
                  (World {["contacts.csv" := example_csv]} ["y"; "more"] []))).
  reflexivity.
Defined.

(** ** How a run can end *)

Lemma main_missing_columns read_csv str_series args w text df :
  fs w !! args_input args = Some text ->
  last_chars 4 (args_input args) = ".csv" ->
  last_chars 4 (args_output args) = ".vcf" ->
  read_csv text = Ok df ->
  has_required_cols df = false ->
  exists msg, main read_csv str_series args w = (w, Raise (ValueError msg)).
Proof.
  intros Hin Hcsv Hvcf Hread Hcols. eexists.
  unfold main, bind at 1, isfile. rewrite Hin, Hcsv, Hvcf.
  rewrite bool_decide_eq_true_2 by eauto. simpl.
  unfold bind at 1, pd_read_csv. rewrite Hin, Hread.
  unfold has_required_cols in Hcols. simpl in Hcols. by rewrite Hcols.
Qed.

Lemma main_publish_outcome args output n w :
  snd (main_publish args output n w) = Ok tt \/
  snd (main_publish args output n w) = Raise EOFError.
Proof.
  destruct (fs w !! args_output args) as [old|] eqn:Hold.
  - destruct (stdin w) as [|answer rest] eqn:Hin.
    + rewrite (main_publish_eof _ _ _ _ _ Hold Hin). by right.
    + destruct (decide (lower answer = "y")) as [Hy|Hy].
      * rewrite (main_publish_yes _ _ _ _ _ _ _ Hold Hin Hy). by left.
      * rewrite (main_publish_no _ _ _ _ _ _ _ Hold Hin Hy). by left.
  - rewrite (main_publish_new _ _ _ _ Hold). by left.
Qed.

(** X9: past the four checks, the run raises [TypeError] exactly when some row
    has a phone or an email that is not text. *)
Theorem main_type_error_iff_not_text read_csv str_series args w text df :
  fs w !! args_input args = Some text ->
  last_chars 4 (args_input args) = ".csv" ->
  last_chars 4 (args_output args) = ".vcf" ->
  read_csv text = Ok df ->
  has_required_cols df = true ->
  snd (main read_csv str_series args w) = Raise TypeError <-> text_table df = false.
Proof.
  intros Hin Hcsv Hvcf Hread Hcols. split.
  - destruct (text_table df) eqn:Htext; [|done].
    rewrite (main_run _ _ _ _ text df) by done.
    by destruct (main_publish_outcome args (document str_series df) (len df)
                   (rendered str_series df w)) as [-> | ->].
  - intros Htext.
    destruct (main_not_text read_csv str_series args w text df) as (w' & -> & _); done.
Qed.

Lemma main_type_error_iff_not_text_witness :
  snd (main example_read no_series example_args (new_world numeric_csv)) = Raise TypeError
  <-> text_table numeric_phones = false.
Proof.
  apply (main_type_error_iff_not_text example_read no_series example_args
           (new_world numeric_csv) numeric_csv numeric_phones); reflexivity.
Defined.

(** X10: when the parser returns a table, a run never ends in [KeyError] or
    [IndexError]: the check for the required columns comes before every
    lookup by label, and the loop asks [iloc] only for rows the table has. *)
Theorem main_no_key_or_index_error read_csv str_series args w :
  (forall text, fs w !! args_input args = Some text ->
                exists df, read_csv text = Ok df) ->
  (forall key, snd (main read_csv str_series args w) <> Raise (KeyError key)) /\
  snd (main read_csv str_series args w) <> Raise IndexError.
Proof.
  intros Hparse.
  assert (snd (main read_csv str_series args w) = Ok tt \/
          (exists msg, snd (main read_csv str_series args w) = Raise (ValueError msg)) \/
          snd (main read_csv str_series args w) = Raise TypeError \/
          snd (main read_csv str_series args w) = Raise EOFError) as Hend.
  { destruct (fs w !! args_input args) as [text|] eqn:Hin.
    2:{ right; left. eexists. unfold main, bind, isfile. rewrite Hin.
        by rewrite bool_decide_eq_false_2 by (by intros [? ?]). }
    destruct (decide (last_chars 4 (args_input args) = ".csv")) as [Hcsv|Hcsv].
    2:{ right; left. eexists. by rewrite (main_input_extension _ _ _ _ text). }
    destruct (decide (last_chars 4 (args_output args) = ".vcf")) as [Hvcf|Hvcf].
    2:{ right; left. eexists. by rewrite (main_output_extension _ _ _ _ text). }
    destruct (Hparse text eq_refl) as [df Hread].
    destruct (has_required_cols df) eqn:Hcols.
    2:{ right; left.
        destruct (main_missing_columns read_csv str_series args w text df) as [msg ->];
          eauto. }
    destruct (text_table df) eqn:Htext.
    - rewrite (main_run _ _ _ _ text df) by done.
      destruct (main_publish_outcome args (document str_series df) (len df)
                  (rendered str_series df w)) as [-> | ->]; auto.
    - destruct (main_not_text read_csv str_series args w text df) as (w' & -> & _);
        auto. }
  split; [intros key|];
    destruct Hend as [-> |[[msg ->]|[-> | ->]]]; discriminate.
Qed.

Lemma main_no_key_or_index_error_witness :
  (forall key, snd (main example_read no_series example_args (new_world numeric_csv))
               <> Raise (KeyError key)) /\
  snd (main example_read no_series example_args (new_world numeric_csv))
  <> Raise IndexError.
Proof.
  apply (main_no_key_or_index_error example_read no_series example_args
           (new_world numeric_csv)).
  intros text [= <-]. by exists numeric_phones.
Defined.

(** X11: an exception of the parser is not caught: with an existing input
    named [.csv] and an output named [.vcf], the run ends with the exception
    [pd.read_csv] raised, in the world as it was. *)
Theorem main_parse_error read_csv str_series args w text e :
  fs w !! args_input args = Some text ->
  last_chars 4 (args_input args) = ".csv" ->
  last_chars 4 (args_output args) = ".vcf" ->
  read_csv text = Raise e ->
  main read_csv str_series args w = (w, Raise e).
Proof.
  intros Hin Hcsv Hvcf Hread.
  unfold main, bind at 1, isfile. rewrite Hin, Hcsv, Hvcf.
  rewrite bool_decide_eq_true_2 by eauto. simpl.
  unfold bind at 1, pd_read_csv. by rewrite Hin, Hread.
Qed.

Lemma main_parse_error_witness :
  main example_read no_series example_args (new_world "")
  = (new_world "", Raise (ParserError "No columns to parse from file")).
Proof.
  apply (main_parse_error example_read no_series example_args (new_world "") "");
    reflexivity.
Defined.

(** ** Names and answers *)

Lemma string_drop_split n s : exists stem, s = stem +:+ string_drop n s.
Proof.
  revert s. induction n as [|n IH]; intros s; [by exists ""|].
  destruct s as [|c s]; [by exists ""|].
  destruct (IH s) as [stem Hs]. exists (String c stem).
  simpl. by rewrite string_app_cons, <- Hs.
Qed.

Lemma last_chars_suffix s ext :
  String.length ext = 4 ->
  last_chars 4 s = ext <-> exists stem, s = stem +:+ ext.
Proof.
  intros Hlen. split.
  - intros <-. apply string_drop_split.
  - intros [stem ->]. by apply last_chars_ext.
Qed.

(** X12: the extension checks ask for a name that ends in the four characters
    [.csv] (for the output, [.vcf]) and nothing more: the slice [[-4:]] equals
    the extension exactly for the names made of some stem, even an empty one,
    and the extension. So an existing input of any other form, shorter names
    included, is refused, and then an output of any other form. *)
Theorem extension_checks_by_suffix read_csv str_series args w text :
  fs w !! args_input args = Some text ->
  (forall s ext, String.length ext = 4 ->
     last_chars 4 s = ext <-> exists stem, s = stem +:+ ext) /\
  ((forall stem, args_input args <> stem +:+ ".csv") ->
   main read_csv str_series args w
   = (w, Raise (ValueError "Must provide a CSV file as input"))) /\
  (forall stem,
     args_input args = stem +:+ ".csv" ->
     (forall stem', args_output args <> stem' +:+ ".vcf") ->
     main read_csv str_series args w
     = (w, Raise (ValueError "Output file must end with '.vcf'"))).
Proof.
  intros Hin. split; [apply last_chars_suffix|]. split.
  - intros Hform. apply (main_input_extension _ _ _ _ text); [done|].
    rewrite last_chars_suffix by done. intros [stem Hs]. by apply (Hform stem).
  - intros stem Hs Hform. apply (main_output_extension _ _ _ _ text); [done| |].
    + rewrite last_chars_suffix by done. eauto.
    + rewrite last_chars_suffix by done. intros [stem' Hs']. by apply (Hform stem').
Qed.

Lemma extension_checks_by_suffix_witness :
  main example_read no_series (Args "csv" "contact_file.vcf")
       (World {["csv" := example_csv]} [] [])
  = (World {["csv" := example_csv]} [] [],
     Raise (ValueError "Must provide a CSV file as input")).
Proof.
  destruct (extension_checks_by_suffix example_read no_series
              (Args "csv" "contact_file.vcf")
              (World {["csv" := example_csv]} [] []) example_csv)
    as (_ & Hinput & _); [reflexivity|].
  apply Hinput. intros stem H. simpl in H.
  destruct stem as [|c1 [|c2 [|c3 [|c4 stem]]]]; try discriminate.
  all: repeat (injection H as ? H); by destruct stem.
Defined.

Lemma lower_is_y s : lower s = "y" <-> s = "y" \/ s = "Y".
Proof.
  split; [|by intros [-> | ->]].
  destruct s as [|c [|c' s]]; try discriminate. simpl. intros [= H].
  destruct c as [[] [] [] [] [] [] [] []]; try discriminate; auto.
Qed.

(** X13: when the destination exists, the only answers that let the write go
    ahead are [y] and [Y]: with either the destination holds the document;
    with any other line, [yes] included, every file is as it was and the run
    says that nothing was written. *)
Theorem overwrite_only_on_y read_csv str_series args w text df old answer rest :
  fs w !! args_input args = Some text ->
  last_chars 4 (args_input args) = ".csv" ->
  last_chars 4 (args_output args) = ".vcf" ->
  read_csv text = Ok df ->
  has_required_cols df = true ->
  text_table df = true ->
  fs w !! args_output args = Some old ->
  stdin w = answer :: rest ->
  (answer = "y" \/ answer = "Y" ->
   main read_csv str_series args w
   = (World (<[args_output args := line (document str_series df)]> (fs w)) rest
            (stdout (rendered str_series df w)
             ++ [question args; published args (len df)]),
      Ok tt)) /\
  (answer <> "y" -> answer <> "Y" ->
   main read_csv str_series args w
   = (World (fs w) rest
            (stdout (rendered str_series df w) ++ [question args; not_written]),
      Ok tt)).
Proof.
  intros Hin Hcsv Hvcf Hread Hcols Htext Hold Hans.
  rewrite (main_run _ _ _ _ text df) by done. split.
  - intros Hy. apply lower_is_y in Hy.
    by rewrite (main_publish_yes _ _ _ _ old answer rest).
  - intros Hy1 Hy2.
    rewrite (main_publish_no _ _ _ _ old answer rest); try done.
    rewrite lower_is_y. by intros [|].
Qed.

Lemma overwrite_only_on_y_witness :
  main example_read no_series example_args (old_world example_csv "yes")
  = (World (fs (old_world example_csv "yes")) []
           (stdout (rendered no_series example_table (old_world example_csv "yes"))
            ++ [question example_args; not_written]),
     Ok tt).
Proof.
  apply (proj2 (overwrite_only_on_y example_read no_series example_args
                  (old_world example_csv "yes") example_csv example_table "old" "yes" []
                  eq_refl eq_refl eq_refl eq_refl eq_refl eq_refl eq_refl eq_refl));
    discriminate.
Defined.

(** X14: running again. After a run that wrote the destination, a second run
    on the files it left, answered [y], leaves the same files: the input is
    read again unchanged and the destination receives the same document. *)
Theorem main_rerun_same_files read_csv str_series args w text df lines :
  fs w !! args_input args = Some text ->
  last_chars 4 (args_input args) = ".csv" ->
  last_chars 4 (args_output args) = ".vcf" ->
  read_csv text = Ok df ->
  has_required_cols df = true ->
  text_table df = true ->
  go_ahead args w = true ->
  let w1 := fst (main read_csv str_series args w) in
  fs (fst (main read_csv str_series args (World (fs w1) ("y" :: lines) (stdout w1))))
  = fs w1.
Proof.
  intros Hin Hcsv Hvcf Hread Hcols Htext Hgo w1.
  assert (fs w1 = <[args_output args := line (document str_series df)]> (fs w)) as Hfs1.
  { unfold w1. rewrite (main_run _ _ _ _ text df) by done.
    pose proof (main_publish_go_ahead args (document str_series df) (len df)
                  (rendered str_series df w) Hgo) as H.
    destruct (main_publish _ _ _ _) as [w' result]. simpl. tauto. }
  assert (args_input args <> args_output args) as Hne.
  { intros Heq. rewrite Heq, Hvcf in Hcsv. discriminate. }
  rewrite (main_run _ _ _ _ text df); try done.
  - rewrite (main_publish_yes _ _ _ _ (line (document str_series df)) "y" lines);
      try done.
    + simpl. by rewrite Hfs1, insert_insert_eq.
    + simpl. rewrite Hfs1. apply lookup_insert_eq.
  - simpl. rewrite Hfs1, lookup_insert_ne; done.
Qed.

Lemma main_rerun_same_files_witness :
  let w1 := fst (main example_read no_series example_args (new_world example_csv)) in
  fs (fst (main example_read no_series example_args
             (World (fs w1) ["y"] (stdout w1))))
  = fs w1.
Proof.
  apply (main_rerun_same_files example_read no_series example_args
           (new_world example_csv) example_csv example_table []); reflexivity.
Defined.

(** ** Which part of the table a run depends on *)

Lemma getitem_same str_series row1 row2 label :
  labelled row1 label = labelled row2 label ->
  getitem str_series row1 label = getitem str_series row2 label.
Proof. unfold getitem. by intros ->. Qed.

Lemma same_contact_getitem str_series row1 row2 :
  same_contact row1 row2 ->
  getitem str_series row1 "phone" = getitem str_series row2 "phone" /\
  getitem str_series row1 "email" = getitem str_series row2 "email" /\
  getitem str_series row1 "first name" = getitem str_series row2 "first name" /\
  getitem str_series row1 "last name" = getitem str_series row2 "last name".
Proof.
  intros H. repeat split; apply getitem_same, H; simpl; tauto.
Qed.

Lemma verify_row_same str_series row1 row2 w :
  same_contact row1 row2 ->
  verify_row str_series row1 w = verify_row str_series row2 w.
Proof.
  intros H. destruct (same_contact_getitem str_series _ _ H) as (Hp & He & Hf & Hl).
  unfold verify_row, full_name. by rewrite Hp, He, Hf, Hl.
Qed.

Lemma bind_cong {A B} (c1 c2 : M A) (k1 k2 : A -> M B) w :
  (forall w', c1 w' = c2 w') ->
  (forall a w', k1 a w' = k2 a w') ->
  bind c1 k1 w = bind c2 k2 w.
Proof.
  intros Hc Hk. unfold bind. rewrite Hc.
  destruct (c2 w) as [w' [a|e]]; [apply Hk|done].
Qed.

Lemma main_loop_same str_series df1 df2 range :
  (forall i, In i range ->
     exists row1 row2,
       iloc df1 i = Ok row1 /\ iloc df2 i = Ok row2 /\ same_contact row1 row2) ->
  forall output n w,
    main_loop str_series df1 range output n w = main_loop str_series df2 range output n w.
Proof.
  induction range as [|i range IH]; intros Hrows output n w; [done|].
  destruct (Hrows i) as (row1 & row2 & H1 & H2 & Hsame); [by left|].
  destruct (same_contact_getitem str_series _ _ Hsame) as (Hp & He & Hf & Hl).
  simpl. rewrite H1, H2.
  rewrite (bind_ok (lift (Ok row1)) _ w w row1) by done.
  rewrite (bind_ok (lift (Ok row2)) _ w w row2) by done.
  apply bind_cong; [intros; by apply verify_row_same|]. intros valid w1.
  apply bind_cong; [done|]. intros _ w2.
  apply bind_cong; [intros; by rewrite He|]. intros email w3.
  apply bind_cong; [intros; by rewrite Hp|]. intros phone w4.
  apply bind_cong; [intros; by rewrite Hf|]. intros fname w5.
  apply bind_cong; [intros; by rewrite Hl|]. intros lname w6.
  apply bind_cong; [done|]. intros block w7.
  apply IH. intros j Hj. apply Hrows. by right.
Qed.

(** X15: a run depends on the table only through its number of rows and the
    cells under the four canonical names: two tables that agree on these give
    the same run, whatever the order of their columns and whatever other
    columns they have. *)
Theorem main_uses_four_columns read_csv1 read_csv2 str_series args w text df1 df2 :
  fs w !! args_input args = Some text ->
  read_csv1 text = Ok df1 ->
  read_csv2 text = Ok df2 ->
  has_required_cols df1 = has_required_cols df2 ->
  len df1 = len df2 ->
  (forall i row1 row2,
     iloc (lower_columns df1) i = Ok row1 ->
     iloc (lower_columns df2) i = Ok row2 ->
     same_contact row1 row2) ->
  main read_csv1 str_series args w = main read_csv2 str_series args w.
Proof.
  intros Hin H1 H2 Hcols Hlen Hrows.
  assert (isfile (args_input args) w = (w, Ok true)) as Hfile.
  { unfold isfile. rewrite Hin. by rewrite bool_decide_eq_true_2 by eauto. }
  unfold main. rewrite !(bind_ok _ _ _ _ _ Hfile). cbn [negb].
  destruct (String.eqb (last_chars 4 (args_input args)) ".csv"); [|done].
  destruct (String.eqb (last_chars 4 (args_output args)) ".vcf"); [|done].
  cbn [negb].
  rewrite (bind_ok (pd_read_csv read_csv1 _) _ w w df1)
    by (unfold pd_read_csv; by rewrite Hin, H1).
  rewrite (bind_ok (pd_read_csv read_csv2 _) _ w w df2)
    by (unfold pd_read_csv; by rewrite Hin, H2).
  fold (has_required_cols df1). fold (has_required_cols df2). rewrite Hcols.
  destruct (has_required_cols df2); [|done]. cbn [negb].
  unfold bind at 1 4.
  rewrite (main_loop_same str_series (lower_columns df1) (lower_columns df2)).
  - change (len (lower_columns df1)) with (len df1).
    change (len (lower_columns df2)) with (len df2). by rewrite Hlen.
  - intros i Hi. apply in_seq in Hi.
    change (len (lower_columns df1)) with (len df1) in Hi.
    destruct (data df1 !! i) as [vs1|] eqn:E1;
      [|apply lookup_ge_None in E1; unfold len in Hi; lia].
    destruct (data df2 !! i) as [vs2|] eqn:E2;
      [|apply lookup_ge_None in E2; unfold len in Hi, Hlen; lia].
    exists (Row (columns (lower_columns df1)) vs1), (Row (columns (lower_columns df2)) vs2).
    assert (iloc (lower_columns df1) i = Ok (Row (columns (lower_columns df1)) vs1)) as I1
      by (unfold iloc; simpl; by rewrite E1).
    assert (iloc (lower_columns df2) i = Ok (Row (columns (lower_columns df2)) vs2)) as I2
      by (unfold iloc; simpl; by rewrite E2).
    split; [done|]. split; [done|]. by apply (Hrows i).
Qed.

Lemma main_uses_four_columns_witness :
  main (fun _ => Ok example_table) no_series example_args (new_world example_csv)
  = main (fun _ => Ok example_wide_table) no_series example_args (new_world example_csv).
Proof.
  apply (main_uses_four_columns (fun _ => Ok example_table)
           (fun _ => Ok example_wide_table) no_series example_args
           (new_world example_csv) example_csv example_table example_wide_table);
    try reflexivity.
  intros [|[|i]] row1 row2 [= <-] [= <-] label Hlabel; simpl in Hlabel;
    destruct Hlabel as [<-|[<-|[<-|[<-|[]]]]]; reflexivity.
Defined.

(** ** Tables in parts, and rows announced as skipped *)

Lemma text_table_stacked df1 df2 :
  columns df2 = columns df1 ->
  text_table (stacked df1 df2) = text_table df1 && text_table df2.
Proof.
  intros Hcols. unfold text_table, rows, stacked, lower_columns. simpl.
  by rewrite map_app, forallb_app, Hcols.
Qed.

Lemma document_stacked str_series df1 df2 :
  columns df2 = columns df1 ->
  document str_series (stacked df1 df2)
  = document str_series df1 +:+ document str_series df2.
Proof.
  intros Hcols. unfold document, cards, rows, stacked, lower_columns. simpl.
  by rewrite !map_app, join_app, Hcols.
Qed.

Lemma labelled_from_length idx vs label :
  length (labelled_from idx vs label) = length (List.filter (String.eqb label) idx).
Proof.
  revert vs. induction idx as [|l idx IH]; intros vs; simpl; [done|].
  rewrite (String.eqb_sym label l).
  destruct (String.eqb l label); simpl; by rewrite IH.
Qed.

Lemma getitem_once str_series str_series' row label :
  label_once label (index row) = true ->
  getitem str_series row label = getitem str_series' row label.
Proof.
  unfold label_once, getitem, labelled. rewrite <- (labelled_from_length _ (cells row)).
  by destruct (labelled_from _ _ _) as [|v [|v' vs]].
Qed.

Lemma getitem_one_str_any str_series str_series' row label :
  one_str (labelled row label) = true ->
  getitem str_series row label = getitem str_series' row label.
Proof.
  unfold getitem. by destruct (labelled row label) as [|[s|] [|v' vs]].
Qed.

Lemma card_any_series str_series str_series' row :
  text_row row = true ->
  label_once "first name" (index row) = true ->
  label_once "last name" (index row) = true ->
  card str_series row = card str_series' row.
Proof.
  intros Hrow Hf Hl. apply andb_true_iff in Hrow as [Hp He].
  unfold card, field.
  rewrite (getitem_one_str_any str_series str_series' _ "email" He).
  rewrite (getitem_one_str_any str_series str_series' _ "phone" Hp).
  rewrite (getitem_once str_series str_series' _ "first name" Hf).
  by rewrite (getitem_once str_series str_series' _ "last name" Hl).
Qed.

(** With the names once in the header and phones and emails that are text, no
    card holds a sub-series: the document does not depend on how [pandas]
    shows one. *)
Lemma document_any_series str_series str_series' df :
  names_once df = true ->
  text_table df = true ->
  document str_series df = document str_series' df.
Proof.
  intros Hnames Htext. apply andb_true_iff in Hnames as [Hf Hl].
  unfold document, cards. f_equal. apply map_ext_in. intros row Hrow.
  unfold text_table in Htext. rewrite forallb_forall in Htext.
  apply card_any_series; [by apply Htext| |];
    unfold rows in Hrow; apply in_map_iff in Hrow as (vs & <- & _); done.
Qed.

(** X16: a table read in two parts. For a table made of the rows of one table
    followed by the rows of another with the same header, in which each name
    column occurs once and the phones and emails are text, the destination
    holds the document of the first, then the document of the second, then one
    line terminator, and the count is the sum of the two. No row is rendered
    through a sub-series, so the documents are the same however [pandas]
    shows one. *)
Theorem main_stacked_tables read_csv str_series args w text df1 df2 :
  fs w !! args_input args = Some text ->
  last_chars 4 (args_input args) = ".csv" ->
  last_chars 4 (args_output args) = ".vcf" ->
  read_csv text = Ok (stacked df1 df2) ->
  columns df2 = columns df1 ->
  has_required_cols df1 = true ->
  names_once df1 = true ->
  text_table df1 = true ->
  text_table df2 = true ->
  go_ahead args w = true ->
  (let (w', result) := main read_csv str_series args w in
   result = Ok tt /\
   fs w' = <[args_output args :=
               document str_series df1 +:+ document str_series df2 +:+ String nl ""]>
             (fs w) /\
   last (stdout w') = Some (published args (len df1 + len df2))) /\
  (forall str_series',
     document str_series' df1 = document str_series df1 /\
     document str_series' df2 = document str_series df2).
Proof.
  intros Hin Hcsv Hvcf Hread Hsame Hcols Hnames Ht1 Ht2 Hgo. split.
  - rewrite (main_run _ _ _ _ text (stacked df1 df2)); try done.
    + pose proof (main_publish_go_ahead args (document str_series (stacked df1 df2))
                    (len (stacked df1 df2))
                    (rendered str_series (stacked df1 df2) w) Hgo) as H.
      destruct (main_publish _ _ _ _) as [w' result].
      rewrite (document_stacked _ _ _ Hsame) in H. unfold line in H.
      rewrite string_app_assoc in H.
      replace (len (stacked df1 df2)) with (len df1 + len df2) in H; [done|].
      unfold len, stacked. simpl. by rewrite length_app.
    + by rewrite (text_table_stacked _ _ Hsame), Ht1, Ht2.
  - intros str_series'. split; apply document_any_series; try done.
    unfold names_once, lower_columns in *. simpl in *. by rewrite Hsame.
Qed.

Lemma main_stacked_tables_witness :
  let (w', result) :=
    main (fun _ => Ok (stacked example_table example_table)) no_series example_args
         (new_world example_csv) in
  result = Ok tt /\
  fs w' = <["contact_file.vcf" :=
              document no_series example_table +:+ document no_series example_table
              +:+ String nl ""]> (fs (new_world example_csv)) /\
  last (stdout w') = Some (published example_args (2 + 2)).
Proof.
  apply (main_stacked_tables (fun _ => Ok (stacked example_table example_table))
           no_series example_args (new_world example_csv) example_csv
           example_table example_table); reflexivity.
Defined.

Lemma count_skipping_verify_warnings str_series row :
  count_occ string_dec (verify_warnings str_series row) skipping = 0.
Proof.
  unfold verify_warnings.
  destruct (Re.search phone_re (field str_series row "phone")),
           (Re.search email_re (field str_series row "email")); by simpl.
Qed.

Lemma count_skipping_warnings str_series row :
  count_occ string_dec (warnings str_series row) skipping
  = if valid_row str_series row then 0 else 1.
Proof.
  unfold warnings. rewrite count_occ_app, count_skipping_verify_warnings.
  by destruct (valid_row str_series row).
Qed.

(** X17: every row that [verify_row] finds invalid is announced with one and
    the same line, [Skipping {row['first name']} {row['last name']}], its
    braces left as they are: once the table is rendered that line has been
    printed as many times as there are invalid rows, while there is a card for
    every row. *)
Theorem main_announces_invalid_rows read_csv str_series args w text df :
  fs w !! args_input args = Some text ->
  last_chars 4 (args_input args) = ".csv" ->
  last_chars 4 (args_output args) = ".vcf" ->
  read_csv text = Ok df ->
  has_required_cols df = true ->
  text_table df = true ->
  exists w1,
    main read_csv str_series args w
    = main_publish args (join (cards str_series df)) (len df) w1 /\
    count_occ string_dec (stdout w1) skipping
    = count_occ string_dec (stdout w) skipping
      + length (List.filter (fun row => negb (valid_row str_series row))
                            (rows (lower_columns df))) /\
    length (cards str_series df) = length (rows (lower_columns df)).
Proof.
  intros Hin Hcsv Hvcf Hread Hcols Htext.
  exists (rendered str_series df w). split; [by apply (main_run _ _ _ _ text)|].
  split; [|unfold cards; by rewrite length_map].
  unfold rendered. simpl. rewrite !count_occ_app.
  change (count_occ string_dec [report (len df)] skipping) with 0.
  rewrite Nat.add_0_r. f_equal.
  induction (rows (lower_columns df)) as [|row l IH]; [done|].
  simpl. rewrite count_occ_app, count_skipping_warnings, IH.
  by destruct (valid_row str_series row).
Qed.

Lemma main_announces_invalid_rows_witness :
  exists w1,
    main example_read no_series example_args (new_world example_csv)
    = main_publish example_args (join (cards no_series example_table)) 2 w1 /\
    count_occ string_dec (stdout w1) skipping = 0 + 1 /\
    length (cards no_series example_table) = 2.
Proof.
  apply (main_announces_invalid_rows example_read no_series example_args
           (new_world example_csv) example_csv example_table); reflexivity.
Defined.
